(** * ModernBlog: the post store of [script.js] and the page around it

  A shallow embedding of [src/script.js]: the global [posts] array, the
  [localStorage] entry written by [savePosts] and read back by [loadPosts],
  the form handlers that create, edit and delete posts, the rendering of the
  cards and of the two side bar lists, the search box, the category filter,
  the delete confirmation and the theme.

  Modelling conventions.
  - A JavaScript string is a [string]; every [ascii] stands for one UTF-16
    code unit in the range U+0000..U+00FF, and text with code units beyond
    that range is outside the embedding.  [trim] and [toLowerCase] follow
    ECMAScript on that range, where lower-casing maps code unit by code unit
    (the mappings that depend on context, such as the final sigma, lie
    beyond it).
  - The browser is explicit state: [State] holds the [posts] global, the
    [localStorage] map, what [postsContainer], [categoriesList] and
    [recentPostsList] currently hold, and the notifications raised so far.
    Widget details (spinners, hidden forms, scrolling, animation) are not
    part of the state.
  - A call returns or throws, and leaves a state in both cases ([Script]).
    The script catches nothing, so an exception ends the listener or timer
    callback in which it is thrown, and the page goes on from the state
    reached.
  - The script builds markup from the fields of the posts without escaping
    them and looks elements up in it; what the HTML parser makes of that
    markup is an input ([Browser]), as are the clock and the random source
    ([Env]).  The elements of the page itself, which the script finds by
    their fixed ids, are taken to exist; [marked.parse] is taken to return
    its markup and [localStorage.setItem] to succeed.  Scripts or events that
    markup injected through a post may set off later are not followed.
  - [setTimeout] callbacks are separate definitions
    ([handlePostSubmit_timeout], [handleEditSubmit_timeout]); a handler that
    passes validation runs its callback at once. *)

From Stdlib Require Import Ascii String NArith Lia List.
From stdpp Require Import base list strings gmap.

Local Open Scope N_scope.

(* [simpl] unfolds [+:+] on a string that starts with a known character. *)
#[local] Arguments String.append !s1 s2 : simpl nomatch.

(** ** JavaScript strings *)

Module JSString.

Definition code (c : ascii) : N := N_of_ascii c.

(** [!s] is true exactly for the empty string. *)
Definition truthy (s : string) : bool :=
  match s with
  | EmptyString => false
  | String _ _ => true
  end.

(** WhiteSpace and LineTerminator code units below U+0100:
    TAB, LF, VT, FF, CR, SP and NBSP. *)
Definition is_space (c : ascii) : bool :=
  let n := code c in
  ((9 <=? n) && (n <=? 13)) || (n =? 32) || (n =? 160).

Fixpoint trimStart (s : string) : string :=
  match s with
  | EmptyString => EmptyString
  | String c r => if is_space c then trimStart r else s
  end.

Fixpoint trimEnd (s : string) : string :=
  match s with
  | EmptyString => EmptyString
  | String c r =>
      match trimEnd r with
      | EmptyString => if is_space c then EmptyString else String c EmptyString
      | r' => String c r'
      end
  end.

(** [String.prototype.trim] *)
Definition trim (s : string) : string := trimEnd (trimStart s).

(** Lower-case mapping of one code unit below U+0100: A-Z, and
    U+00C0..U+00DE except the multiplication sign U+00D7. *)
Definition lower (c : ascii) : ascii :=
  let n := code c in
  if ((65 <=? n) && (n <=? 90))
     || ((192 <=? n) && (n <=? 222) && negb (n =? 215))
  then ascii_of_N (n + 32)
  else c.

(** [String.prototype.toLowerCase] on code units below U+0100, where no
    mapping depends on the neighbours of a code unit. *)
Fixpoint toLowerCase (s : string) : string :=
  match s with
  | EmptyString => EmptyString
  | String c r => String (lower c) (toLowerCase r)
  end.

Fixpoint startsWith (s t : string) {struct t} : bool :=
  match t, s with
  | EmptyString, _ => true
  | String _ _, EmptyString => false
  | String b t', String a s' => Ascii.eqb a b && startsWith s' t'
  end.

(** [s.includes(t)] *)
Fixpoint includes (s t : string) : bool :=
  startsWith s t ||
  match s with
  | EmptyString => false
  | String _ s' => includes s' t
  end.

(** [s.substr(start, len)] for non-negative arguments. *)
Definition substr (start len : nat) (s : string) : string :=
  String.substring start len s.

(** One digit of [Number.prototype.toString(36)]. *)
Definition digit36 (d : N) : ascii :=
  if d <? 10 then ascii_of_N (48 + d) else ascii_of_N (87 + d).

Fixpoint toString36_aux (fuel : nat) (n : N) (acc : string) : string :=
  match fuel with
  | O => acc
  | S fuel' =>
      let acc' := String (digit36 (n mod 36)) acc in
      if n / 36 =? 0 then acc' else toString36_aux fuel' (n / 36) acc'
  end.

(** [n.toString(36)] for a non-negative integer [n]; the number of binary
    digits of [n] bounds the number of base-36 digits. *)
Definition toString36 (n : N) : string :=
  toString36_aux (S (N.to_nat (N.size n))) n EmptyString.

(** The value of a base-36 numeral, used to state that [toString36] prints
    the number it is given. *)
Definition value36_digit (c : ascii) : N :=
  let n := code c in
  if n <? 58 then n - 48 else n - 87.

Fixpoint value36_aux (s : string) (acc : N) : N :=
  match s with
  | EmptyString => acc
  | String c r => value36_aux r (36 * acc + value36_digit c)
  end.

Definition value36 (s : string) : N := value36_aux s 0.

End JSString.

(** ** Own properties of a JavaScript object

  An object used as a dictionary is the list of its own properties in the
  order [Object.entries], [Object.keys] and [JSON.stringify] enumerate them
  (OrdinaryOwnPropertyKeys): array-index keys first, in ascending numeric
  order, then the other string keys in order of creation. *)

Module JSObject.
Import JSString.

Definition is_digit (c : ascii) : bool := (48 <=? code c) && (code c <=? 57).

Fixpoint all_digits (s : string) : bool :=
  match s with
  | EmptyString => true
  | String c r => is_digit c && all_digits r
  end.

Fixpoint decimal_aux (s : string) (acc : N) : N :=
  match s with
  | EmptyString => acc
  | String c r => decimal_aux r (10 * acc + (code c - 48))
  end.

(** An array index is a canonical numeric string below 2^32 - 1. *)
Definition array_index (k : string) : option N :=
  match k with
  | EmptyString => None
  | String c r =>
      if all_digits k && (negb (code c =? 48) || negb (truthy r))
      then let n := decimal_aux k 0 in
           if n <? 4294967295 then Some n else None
      else None
  end.

Section Props.
Context {V : Type}.

Fixpoint get (k : string) (o : list (string * V)) : option V :=
  match o with
  | [] => None
  | (k', v) :: o' => if String.eqb k' k then Some v else get k o'
  end.

Fixpoint overwrite (k : string) (v : V) (o : list (string * V))
  : list (string * V) :=
  match o with
  | [] => []
  | (k', v') :: o' =>
      if String.eqb k' k then (k', v) :: o' else (k', v') :: overwrite k v o'
  end.

(** A new array-index key goes before the first key that is not an array
    index or is a larger one. *)
Fixpoint insert_index (i : N) (k : string) (v : V) (o : list (string * V))
  : list (string * V) :=
  match o with
  | [] => [(k, v)]
  | (k', v') :: o' =>
      match array_index k' with
      | Some j => if j <? i then (k', v') :: insert_index i k v o'
                  else (k, v) :: o
      | None => (k, v) :: o
      end
  end.

(** [o[k] = v] on own data properties. *)
Definition set (k : string) (v : V) (o : list (string * V))
  : list (string * V) :=
  match get k o with
  | Some _ => overwrite k v o
  | None =>
      match array_index k with
      | Some i => insert_index i k v o
      | None => o ++ [(k, v)]
      end
  end.
End Props.

End JSObject.

(** ** JSON texts

    [JSON.parse] on the grammar of ECMA-404.  A number keeps its literal: the
    conversion to a double is not modelled.  An evaluation returns, or raises
    a SyntaxError or a TypeError.  [Unmodelled] marks what the embedding does
    not follow: an escape that denotes a code unit above U+00FF.  The parser
    of values recurses on fuel; [OutOfFuel] is never the result of [parse]
    (lemma [parse_fuel_suffices]). *)

Module JSON.
Import JSString.

Inductive outcome (A : Type) : Type :=
| Return (a : A)
| SyntaxError
| TypeError
| Unmodelled
| OutOfFuel.
Arguments Return {A} a.
Arguments SyntaxError {A}.
Arguments TypeError {A}.
Arguments Unmodelled {A}.
Arguments OutOfFuel {A}.

Definition bind {A B} (m : outcome A) (k : A -> outcome B) : outcome B :=
  match m with
  | Return a => k a
  | SyntaxError => SyntaxError
  | TypeError => TypeError
  | Unmodelled => Unmodelled
  | OutOfFuel => OutOfFuel
  end.

#[local] Unset Elimination Schemes.
Inductive JSValue : Type :=
| JNull
| JBool (b : bool)
| JNum (literal : string)
| JStr (s : string)
| JArr (items : list JSValue)
| JObj (props : list (string * JSValue)).
#[local] Set Elimination Schemes.

Definition is_ws (c : ascii) : bool :=
  let n := code c in (n =? 9) || (n =? 10) || (n =? 13) || (n =? 32).

Fixpoint skip_ws (s : string) : string :=
  match s with
  | EmptyString => EmptyString
  | String c r => if is_ws c then skip_ws r else s
  end.

Fixpoint strip_prefix (p s : string) : option string :=
  match p, s with
  | EmptyString, _ => Some s
  | String a p', String b s' => if Ascii.eqb a b then strip_prefix p' s' else None
  | String _ _, EmptyString => None
  end.

(** *** Strings *)

Definition hex_value (c : ascii) : option N :=
  let n := code c in
  if (48 <=? n) && (n <=? 57) then Some (n - 48)
  else if (97 <=? n) && (n <=? 102) then Some (n - 87)
  else if (65 <=? n) && (n <=? 70) then Some (n - 55)
  else None.

Definition hex4 (a b c d : ascii) : option N :=
  match hex_value a, hex_value b, hex_value c, hex_value d with
  | Some x, Some y, Some z, Some w => Some (4096 * x + 256 * y + 16 * z + w)
  | _, _, _, _ => None
  end.

(** The character after a backslash, except [u]. *)
Definition unescape (e : ascii) : option ascii :=
  let n := code e in
  if (n =? 34) || (n =? 92) || (n =? 47) then Some e
  else if n =? 98 then Some (ascii_of_N 8)
  else if n =? 102 then Some (ascii_of_N 12)
  else if n =? 110 then Some (ascii_of_N 10)
  else if n =? 114 then Some (ascii_of_N 13)
  else if n =? 116 then Some (ascii_of_N 9)
  else None.

Definition cons_char (c : ascii) (m : outcome (string * string))
  : outcome (string * string) :=
  bind m (fun '(s, rest) => Return (String c s, rest)).

(** The characters of a string literal after its opening quote, up to and
    including the closing quote; returns the denoted string and the rest of
    the text. *)
Fixpoint parse_chars (s : string) : outcome (string * string) :=
  match s with
  | EmptyString => SyntaxError
  | String c r =>
      if code c =? 34 then Return (EmptyString, r)
      else if code c =? 92 then
        match r with
        | EmptyString => SyntaxError
        | String e r1 =>
            if code e =? 117 then
              match r1 with
              | String h1 (String h2 (String h3 (String h4 r5))) =>
                  match hex4 h1 h2 h3 h4 with
                  | Some n =>
                      if n <? 256 then cons_char (ascii_of_N n) (parse_chars r5)
                      else Unmodelled
                  | None => SyntaxError
                  end
              | _ => SyntaxError
              end
            else
              match unescape e with
              | Some d => cons_char d (parse_chars r1)
              | None => SyntaxError
              end
        end
      else if code c <? 32 then SyntaxError
      else cons_char c (parse_chars r)
  end.

(** *** Numbers *)

Fixpoint take_digits (s : string) : string * string :=
  match s with
  | EmptyString => (EmptyString, EmptyString)
  | String c r =>
      if JSObject.is_digit c
      then let '(ds, rest) := take_digits r in (String c ds, rest)
      else (EmptyString, s)
  end.

Definition lex_int (s : string) : option (string * string) :=
  match s with
  | EmptyString => None
  | String c r =>
      if code c =? 48 then Some (String c EmptyString, r)
      else if JSObject.is_digit c
      then let '(ds, rest) := take_digits r in Some (String c ds, rest)
      else None
  end.

Definition lex_frac (s : string) : option (string * string) :=
  match s with
  | String c r =>
      if code c =? 46 then
        match take_digits r with
        | (EmptyString, _) => None
        | (ds, rest) => Some (String c ds, rest)
        end
      else Some (EmptyString, s)
  | EmptyString => Some (EmptyString, s)
  end.

Definition lex_exp (s : string) : option (string * string) :=
  match s with
  | String c r =>
      if (code c =? 101) || (code c =? 69) then
        let '(sign, r1) :=
          match r with
          | String g r' =>
              if (code g =? 43) || (code g =? 45)
              then (String g EmptyString, r') else (EmptyString, r)
          | EmptyString => (EmptyString, r)
          end in
        match take_digits r1 with
        | (EmptyString, _) => None
        | (ds, rest) => Some (String c (sign +:+ ds), rest)
        end
      else Some (EmptyString, s)
  | EmptyString => Some (EmptyString, s)
  end.

Definition lex_number (s : string) : option (string * string) :=
  let '(sign, s1) :=
    match s with
    | String c r => if code c =? 45 then (String c EmptyString, r)
                    else (EmptyString, s)
    | EmptyString => (EmptyString, s)
    end in
  match lex_int s1 with
  | None => None
  | Some (i, s2) =>
      match lex_frac s2 with
      | None => None
      | Some (f, s3) =>
          match lex_exp s3 with
          | None => None
          | Some (e, s4) => Some (sign +:+ i +:+ f +:+ e, s4)
          end
      end
  end.

(** *** Values *)

Definition parse_atom (s : string) : outcome (JSValue * string) :=
  match strip_prefix "true" s, strip_prefix "false" s, strip_prefix "null" s with
  | Some r, _, _ => Return (JBool true, r)
  | _, Some r, _ => Return (JBool false, r)
  | _, _, Some r => Return (JNull, r)
  | None, None, None =>
      match lex_number s with
      | Some (lit, r) => Return (JNum lit, r)
      | None => SyntaxError
      end
  end.

Fixpoint parse_value (fuel : nat) (s : string) : outcome (JSValue * string) :=
  match fuel with
  | O => OutOfFuel
  | S fuel' =>
      match skip_ws s with
      | EmptyString => SyntaxError
      | String c r =>
          if code c =? 123 then
            match skip_ws r with
            | String d r' =>
                if code d =? 125 then Return (JObj [], r')
                else parse_members fuel' r []
            | EmptyString => SyntaxError
            end
          else if code c =? 91 then
            match skip_ws r with
            | String d r' =>
                if code d =? 93 then Return (JArr [], r')
                else parse_elements fuel' r []
            | EmptyString => SyntaxError
            end
          else if code c =? 34 then
            bind (parse_chars r) (fun '(str, r') => Return (JStr str, r'))
          else parse_atom (String c r)
      end
  end

with parse_elements (fuel : nat) (s : string) (acc : list JSValue)
  : outcome (JSValue * string) :=
  match fuel with
  | O => OutOfFuel
  | S fuel' =>
      bind (parse_value fuel' s) (fun '(v, r) =>
        match skip_ws r with
        | String d r' =>
            if code d =? 44 then parse_elements fuel' r' (v :: acc)
            else if code d =? 93 then Return (JArr (rev (v :: acc)), r')
            else SyntaxError
        | EmptyString => SyntaxError
        end)
  end

with parse_members (fuel : nat) (s : string) (obj : list (string * JSValue))
  : outcome (JSValue * string) :=
  match fuel with
  | O => OutOfFuel
  | S fuel' =>
      match skip_ws s with
      | String q r =>
          if code q =? 34 then
            bind (parse_chars r) (fun '(k, r1) =>
              match skip_ws r1 with
              | String d r2 =>
                  if code d =? 58 then
                    bind (parse_value fuel' r2) (fun '(v, r3) =>
                      let obj' := JSObject.set k v obj in
                      match skip_ws r3 with
                      | String e r4 =>
                          if code e =? 44 then parse_members fuel' r4 obj'
                          else if code e =? 125 then Return (JObj obj', r4)
                          else SyntaxError
                      | EmptyString => SyntaxError
                      end)
                  else SyntaxError
              | EmptyString => SyntaxError
              end)
          else SyntaxError
      | EmptyString => SyntaxError
      end
  end.

(** [JSON.parse(text)]: one value, surrounded by white space only.  Two units
    of fuel for every character are enough. *)
Definition parse (text : string) : outcome JSValue :=
  bind (parse_value (S (S (2 * String.length text))) text) (fun '(v, rest) =>
    match skip_ws rest with
    | EmptyString => Return v
    | String _ _ => SyntaxError
    end).

(** Enough fuel: the parsers of values, elements and members return, and a
    value they return leaves a shorter text. *)
Definition fuel_ok (f : nat) : Prop :=
  (forall s, (2 * String.length s + 1 <= f)%nat ->
     parse_value f s <> OutOfFuel
     /\ forall v r, parse_value f s = Return (v, r) -> (String.length r < String.length s)%nat)
  /\ (forall s acc, (2 * String.length s + 2 <= f)%nat ->
     parse_elements f s acc <> OutOfFuel
     /\ forall v r, parse_elements f s acc = Return (v, r) -> (String.length r < String.length s)%nat)
  /\ (forall s obj, (2 * String.length s + 2 <= f)%nat ->
     parse_members f s obj <> OutOfFuel
     /\ forall v r, parse_members f s obj = Return (v, r) -> (String.length r < String.length s)%nat).


(** *** QuoteJSONString *)

Definition hex_digit (d : N) : ascii :=
  if d <? 10 then ascii_of_N (48 + d) else ascii_of_N (87 + d).

Definition backslash (c : ascii) : string :=
  String (ascii_of_N 92) (String c EmptyString).

Definition escape (c : ascii) : string :=
  let n := code c in
  if (n =? 34) || (n =? 92) then backslash c
  else if n =? 8 then backslash (ascii_of_N 98)
  else if n =? 9 then backslash (ascii_of_N 116)
  else if n =? 10 then backslash (ascii_of_N 110)
  else if n =? 12 then backslash (ascii_of_N 102)
  else if n =? 13 then backslash (ascii_of_N 114)
  else if n <? 32 then
    backslash (ascii_of_N 117) +:+ "00"
    +:+ String (hex_digit (n / 16)) (String (hex_digit (n mod 16)) EmptyString)
  else String c EmptyString.

Fixpoint escape_all (s : string) : string :=
  match s with
  | EmptyString => EmptyString
  | String c r => escape c +:+ escape_all r
  end.

Definition dquote : string := Eval cbv in String (ascii_of_N 34) EmptyString.

Definition quote (s : string) : string := dquote +:+ escape_all s +:+ dquote.

End JSON.

(** ** Posts and the browser state *)

Import JSString.
Import JSON (outcome, Return, SyntaxError, TypeError, Unmodelled, OutOfFuel,
             JSValue, JNull, JBool, JNum, JStr, JArr, JObj).

(** A post record, with its properties in the order [handlePostSubmit]
    creates them. *)
Record Post : Type := mkPost {
  id : string;
  title : string;
  category : string;
  content : string;
  createdAt : string
}.

(** What [postsContainer] holds: the cards [displayPosts] has appended so far
    ([Cards []] is the container just emptied), its no-posts message, or the
    no-match message of [searchPosts]. *)
Inductive container : Type :=
| Cards (postsToDisplay : list Post)
| NoPosts
| NoMatch (searchTerm : string).

Definition shown (c : container) : list Post :=
  match c with
  | Cards ps => ps
  | NoPosts => []
  | NoMatch _ => []
  end.

(** A value stored in the [categories] object of [updateCategoriesList].  An
    inherited property read through [categories[c]] is a function, and
    [(f || 0) + 1] is then the text of that function followed by [1];
    [Text c k] is the text of [Object.prototype[c]] followed by [k] ones. *)
Inductive count : Type :=
| Num (n : N)
| Text (inherited : string) (ones : nat).

(** One [li] of [categoriesList]: the [data-category] attribute of its link
    and the count shown in it. *)
Record CategoryLink : Type := mkLink {
  data_category : string;
  link_text : string;
  category_count : count
}.

(** One [li] of [recentPostsList]: the [data-id] attribute of its link and
    the text of the link. *)
Record RecentLink : Type := mkRecent {
  data_id : string;
  recent_text : string
}.

Record State : Type := mkState {
  posts : list Post;
  localStorage : gmap string string;
  postsContainer : container;
  categoriesList : list CategoryLink;
  recentPostsList : list RecentLink;
  notifications : list (string * string)
}.

Definition set_posts (ps : list Post) (st : State) : State :=
  mkState ps (localStorage st) (postsContainer st) (categoriesList st)
          (recentPostsList st) (notifications st).

Definition set_localStorage (ls : gmap string string) (st : State) : State :=
  mkState (posts st) ls (postsContainer st) (categoriesList st)
          (recentPostsList st) (notifications st).

Definition set_postsContainer (c : container) (st : State) : State :=
  mkState (posts st) (localStorage st) c (categoriesList st)
          (recentPostsList st) (notifications st).

Definition set_categoriesList (links : list CategoryLink) (st : State) : State :=
  mkState (posts st) (localStorage st) (postsContainer st) links
          (recentPostsList st) (notifications st).

Definition set_recentPostsList (links : list RecentLink) (st : State) : State :=
  mkState (posts st) (localStorage st) (postsContainer st) (categoriesList st)
          links (notifications st).

(** The page before anything is loaded: [let posts = []], and the three
    lists of the page empty. *)
Definition initial (ls : gmap string string) : State :=
  mkState [] ls NoPosts [] [] [].

(** The clock and the random source, read when a post is created:
    [Date.now()], [Math.random().toString(36)] and
    [new Date().toISOString()]. *)
Record Env : Type := mkEnv {
  Date_now : N;
  Math_random_toString36 : string;
  Date_toISOString : string
}.

(** What the browser makes of the markup the script builds.  The script puts
    the fields of a post, a category with its count, or the search text into
    a template without escaping them, assigns the result to [innerHTML], and
    right away looks up an element of the template to give it a listener.
    The HTML parser (and [marked.parse], which renders the content of a post)
    is no part of [script.js]; it enters as the answers to these look-ups:
    whether the element is found, or the look-up gives [null].

    - [edit_btn post], [delete_btn post]:
      [postElement.querySelector('.edit-btn')] and [('.delete-btn')] on the
      card of [displayPosts];
    - [category_link category n]: [li.querySelector('.category-link')] in
      [updateCategoriesList];
    - [recent_post_link post]: [li.querySelector('.recent-post-link')] in
      [updateRecentPostsList];
    - [reset_search st searchTerm]: [document.getElementById('reset-search')]
      after the no-match message of [searchPosts]; this look-up goes through
      the whole document, so its answer may depend on the page [st] as well. *)
Record Browser : Type := mkBrowser {
  edit_btn : Post -> bool;
  delete_btn : Post -> bool;
  category_link : string -> count -> bool;
  recent_post_link : Post -> bool;
  reset_search : State -> string -> bool
}.

(** What a call evaluates to. *)
Inductive completion : Type :=
| Undefined
| Boolean (b : bool).

(** *** Calls that change the page and may throw

    A call runs on a state and ends by returning a value or by throwing; in
    both cases it leaves a state, the one reached when it returned or threw.
    An exception is caught nowhere in [script.js]: it ends every call on the
    stack. *)
Definition Script (A : Type) : Type := State -> outcome A * State.

#[global] Instance Script_ret : MRet Script :=
  fun A (a : A) (st : State) => (Return a, st).

#[global] Instance Script_bind : MBind Script :=
  fun A B (k : A -> Script B) (m : Script A) (st : State) =>
    match m st with
    | (Return a, st1) => k a st1
    | (SyntaxError, st1) => (SyntaxError, st1)
    | (TypeError, st1) => (TypeError, st1)
    | (Unmodelled, st1) => (Unmodelled, st1)
    | (OutOfFuel, st1) => (OutOfFuel, st1)
    end.

(** A statement that changes the state and cannot throw. *)
Definition modify (f : State -> State) : Script unit :=
  fun st => (Return tt, f st).

(** Calling a method of [null]. *)
Definition throw_TypeError {A : Type} : Script A :=
  fun st => (TypeError, st).

(** *** [JSON.stringify(posts)] on an array of post records *)

Definition member (key value : string) : string :=
  JSON.quote key +:+ ":" +:+ JSON.quote value.

Definition stringify_post (p : Post) : string :=
  "{" +:+ member "id" (id p)
  +:+ "," +:+ member "title" (title p)
  +:+ "," +:+ member "category" (category p)
  +:+ "," +:+ member "content" (content p)
  +:+ "," +:+ member "createdAt" (createdAt p) +:+ "}".

Fixpoint stringify_elements (ps : list Post) : string :=
  match ps with
  | [] => EmptyString
  | [p] => stringify_post p
  | p :: ps' => stringify_post p +:+ "," +:+ stringify_elements ps'
  end.

Definition JSON_stringify (ps : list Post) : string :=
  "[" +:+ stringify_elements ps +:+ "]".

(** The JavaScript value an array of post records is. *)
Definition post_value (p : Post) : JSValue :=
  JObj [("id", JStr (id p)); ("title", JStr (title p));
        ("category", JStr (category p)); ("content", JStr (content p));
        ("createdAt", JStr (createdAt p))].

Definition posts_value (ps : list Post) : JSValue := JArr (map post_value ps).

Definition as_post (v : JSValue) : option Post :=
  match v with
  | JObj [(k1, JStr i); (k2, JStr t); (k3, JStr c); (k4, JStr x); (k5, JStr d)] =>
      if String.eqb k1 "id" && String.eqb k2 "title" && String.eqb k3 "category"
         && String.eqb k4 "content" && String.eqb k5 "createdAt"
      then Some (mkPost i t c x d) else None
  | _ => None
  end.

Fixpoint as_post_list (vs : list JSValue) : option (list Post) :=
  match vs with
  | [] => Some []
  | v :: vs' =>
      match as_post v, as_post_list vs' with
      | Some p, Some ps => Some (p :: ps)
      | _, _ => None
      end
  end.

Definition as_posts (v : JSValue) : option (list Post) :=
  match v with
  | JArr items => as_post_list items
  | _ => None
  end.

Definition is_array (v : JSValue) : bool :=
  match v with
  | JArr _ => true
  | _ => false
  end.

(** *** Rendering the posts *)

(** [postsContainer.appendChild(postElement)] *)
Definition appendChild_post (post : Post) (st : State) : State :=
  set_postsContainer (Cards (shown (postsContainer st) ++ [post])) st.

(** The [forEach] of [displayPosts].  The card of a post is built and both
    buttons are looked up; [editBtn.addEventListener] throws when the first
    look-up gave [null], [deleteBtn.addEventListener] when the second did.
    The card is appended only after both listeners are in place, so the card
    on which the loop throws and the cards after it are not in the
    container. *)
Fixpoint displayPosts_forEach (b : Browser) (postsToDisplay : list Post)
  : Script unit :=
  match postsToDisplay with
  | [] => mret tt
  | post :: rest =>
      if edit_btn b post
      then if delete_btn b post
           then modify (appendChild_post post) ;; displayPosts_forEach b rest
           else throw_TypeError
      else throw_TypeError
  end.

(** [displayPosts(postsToDisplay)] *)
Definition displayPosts (b : Browser) (postsToDisplay : list Post) : Script unit :=
  modify (set_postsContainer (Cards [])) ;;
  match postsToDisplay with
  | [] => modify (set_postsContainer NoPosts)
  | _ :: _ => displayPosts_forEach b postsToDisplay
  end.

(** [showNotification(message, type)]: the message is put into a [span] and
    nothing is looked up afterwards. *)
Definition showNotification (message type : string) (st : State) : State :=
  mkState (posts st) (localStorage st) (postsContainer st) (categoriesList st)
          (recentPostsList st) (notifications st ++ [(message, type)]).

(** *** The category side bar *)

(** The properties every object inherits from [Object.prototype];
    [__proto__] is an accessor and is treated apart. *)
Definition Object_prototype : list string :=
  ["constructor"; "hasOwnProperty"; "isPrototypeOf"; "propertyIsEnumerable";
   "toLocaleString"; "toString"; "valueOf"; "__defineGetter__";
   "__defineSetter__"; "__lookupGetter__"; "__lookupSetter__"].

Definition inherited (c : string) : bool :=
  existsb (String.eqb c) Object_prototype.

(** [categories[post.category] = (categories[post.category] || 0) + 1].
    Assigning a string to [__proto__] goes to the inherited setter, which
    ignores it. *)
Definition count_post (categories : list (string * count)) (post : Post)
  : list (string * count) :=
  let c := category post in
  match JSObject.get c categories with
  | Some (Num n) => JSObject.set c (Num (n + 1)) categories
  | Some (Text f k) => JSObject.set c (Text f (S k)) categories
  | None =>
      if String.eqb c "__proto__" then categories
      else if inherited c then JSObject.set c (Text c 1) categories
      else JSObject.set c (Num 1) categories
  end.

(** [categoriesList.appendChild(li)] *)
Definition appendChild_category (l : CategoryLink) (st : State) : State :=
  set_categoriesList (categoriesList st ++ [l]) st.

(** The [forEach] over [Object.entries(categories)]: the listener is given
    to the link before the [li] is appended, so the loop throws on the first
    category whose link is not found, with the links before it in the list. *)
Fixpoint categories_forEach (b : Browser) (entries : list (string * count))
  : Script unit :=
  match entries with
  | [] => mret tt
  | (category, n) :: rest =>
      if category_link b category n
      then modify (appendChild_category (mkLink category category n)) ;;
           categories_forEach b rest
      else throw_TypeError
  end.

(** [categoriesList.insertBefore(li, categoriesList.firstChild)] for the
    [All] link, whose markup holds nothing but [posts.length]. *)
Definition insert_all_link (st : State) : State :=
  set_categoriesList
    (mkLink "all" "All" (Num (N.of_nat (List.length (posts st))))
     :: categoriesList st) st.

(** [updateCategoriesList()] *)
Definition updateCategoriesList (b : Browser) : Script unit :=
  fun st =>
    let categories := fold_left count_post (posts st) [] in
    (modify (set_categoriesList []) ;;
     categories_forEach b categories ;;
     match categories with
     | [] => mret tt
     | _ :: _ => modify insert_all_link
     end) st.

(** *** The recent posts *)

(** [recentPostsList.appendChild(li)] *)
Definition appendChild_recent (l : RecentLink) (st : State) : State :=
  set_recentPostsList (recentPostsList st ++ [l]) st.

(** The [forEach] of [updateRecentPostsList]: here too the link is looked up
    and given its listener before the [li] is appended. *)
Fixpoint recentPosts_forEach (b : Browser) (recentPosts : list Post)
  : Script unit :=
  match recentPosts with
  | [] => mret tt
  | post :: rest =>
      if recent_post_link b post
      then modify (appendChild_recent (mkRecent (id post) (title post))) ;;
           recentPosts_forEach b rest
      else throw_TypeError
  end.

(** [updateRecentPostsList()]; [[...posts].slice(0, 5)] is the first five
    posts. *)
Definition updateRecentPostsList (b : Browser) : Script unit :=
  fun st =>
    let recentPosts := take 5 (posts st) in
    (modify (set_recentPostsList []) ;;
     recentPosts_forEach b recentPosts) st.

(** *** Loading and saving *)

(** The three calls that end [loadPosts] and [savePosts]. *)
Definition render (b : Browser) : Script unit :=
  fun st =>
    (displayPosts b (posts st) ;;
     updateCategoriesList b ;;
     updateRecentPostsList b) st.

(** [loadPosts()].  [getItem] gives [null] for a missing key; [null] and the
    empty string are falsy.  Nothing is caught: a SyntaxError of [JSON.parse]
    leaves the page as it was.  The parsed value is assigned to [posts] as it
    is, and [displayPosts(posts)] and [updateCategoriesList()] then read
    [posts.length] and call [posts.forEach]: on [null] the read throws a
    TypeError, and on any other value that is not an array [forEach] is not a
    function, so the call throws one.  The state after the call is [None]
    when [posts] then holds a value the typed store has no place for: a value
    that is not an array, or an array whose elements are not all post records
    (the latter is not followed, hence [Unmodelled]). *)
Definition loadPosts (b : Browser) (st : State) : outcome unit * option State :=
  let storedPosts := localStorage st !! "blogPosts" in
  let parsed :=
    match storedPosts with
    | Some text => if truthy text then JSON.parse text else Return (JArr [])
    | None => Return (JArr [])
    end in
  match parsed with
  | Return (JArr items) =>
      match as_post_list items with
      | Some ps =>
          let r := render b (set_posts ps st) in
          (fst r, Some (snd r))
      | None => (Unmodelled, None)
      end
  | Return _ => (TypeError, None)
  | SyntaxError => (SyntaxError, Some st)
  | TypeError => (TypeError, Some st)
  | Unmodelled => (Unmodelled, None)
  | OutOfFuel => (OutOfFuel, None)
  end.

(** [localStorage.setItem('blogPosts', JSON.stringify(posts))] *)
Definition setItem_blogPosts (st : State) : State :=
  set_localStorage (<["blogPosts" := JSON_stringify (posts st)]> (localStorage st)) st.

(** [savePosts()]: the text is stored before anything is rendered. *)
Definition savePosts (b : Browser) : Script unit :=
  modify setItem_blogPosts ;; render b.

(** [generateUniqueId()] *)
Definition generateUniqueId (env : Env) : string :=
  toString36 (Date_now env) +:+ substr 2 5 (Math_random_toString36 env).

(** *** The form handlers *)

(** [posts.unshift(newPost)] *)
Definition unshift (newPost : Post) (st : State) : State :=
  set_posts (newPost :: posts st) st.

(** The callback [handlePostSubmit] hands to [setTimeout]. *)
Definition handlePostSubmit_timeout
    (b : Browser) (env : Env) (title category content : string) : Script unit :=
  let newPost :=
    {| id := generateUniqueId env;
       title := title;
       category := category;
       content := content;
       createdAt := Date_toISOString env |} in
  modify (unshift newPost) ;;
  savePosts b ;;
  modify (showNotification "Post published successfully!" "success").

(** [handlePostSubmit(e)], given the values of the form fields. *)
Definition handlePostSubmit
    (b : Browser) (env : Env) (post_title post_category post_content : string)
  : Script unit :=
  let title := trim post_title in
  let category := post_category in
  let content := trim post_content in
  if negb (truthy title) || negb (truthy category) || negb (truthy content)
  then modify (showNotification "Please fill all fields" "error")
  else handlePostSubmit_timeout b env title category content.

(** [posts.findIndex(f)]; [None] stands for -1. *)
Fixpoint findIndex {A : Type} (f : A -> bool) (l : list A) : option nat :=
  match l with
  | [] => None
  | x :: l' => if f x then Some O else S <$> findIndex f l'
  end.

(** [posts[postIndex] = {...posts[postIndex], title, category, content}] *)
Definition assign_post (postIndex : nat) (title category content : string)
    (st : State) : State :=
  set_posts
    (alter (fun old => {| id := id old;
                          title := title;
                          category := category;
                          content := content;
                          createdAt := createdAt old |})
           postIndex (posts st)) st.

(** The callback [handleEditSubmit] hands to [setTimeout]. *)
Definition handleEditSubmit_timeout
    (b : Browser) (postId title category content : string) : Script unit :=
  fun st =>
    match findIndex (fun p => String.eqb (id p) postId) (posts st) with
    | None => (mret tt : Script unit) st
    | Some postIndex =>
        (modify (assign_post postIndex title category content) ;;
         savePosts b ;;
         modify (showNotification "Post updated successfully!" "success")) st
    end.

(** [handleEditSubmit(e)], given the values of the form fields. *)
Definition handleEditSubmit
    (b : Browser)
    (edit_post_id edit_post_title edit_post_category edit_post_content : string)
  : Script unit :=
  let postId := edit_post_id in
  let title := trim edit_post_title in
  let category := edit_post_category in
  let content := trim edit_post_content in
  if negb (truthy title) || negb (truthy category) || negb (truthy content)
  then modify (showNotification "Please fill all fields" "error")
  else handleEditSubmit_timeout b postId title category content.

(** [posts = posts.filter(post => post.id !== postId)] *)
Definition filter_out (postId : string) (st : State) : State :=
  set_posts (List.filter (fun post => negb (String.eqb (id post) postId)) (posts st)) st.

(** [deletePost(postId)]: no [return] statement. *)
Definition deletePost (b : Browser) (postId : string) : Script completion :=
  modify (filter_out postId) ;;
  savePosts b ;;
  modify (showNotification "Post deleted successfully!" "success") ;;
  mret Undefined.

(** *** Searching *)

(** The test of the [filter] callback in [searchPosts]. *)
Definition matches (searchTerm : string) (post : Post) : bool :=
  includes (toLowerCase (title post)) searchTerm
  || includes (toLowerCase (content post)) searchTerm.

(** [document.getElementById('reset-search').addEventListener(...)] *)
Definition listen_reset_search (b : Browser) (searchTerm : string) : Script unit :=
  fun st => if reset_search b st searchTerm then (Return tt, st) else (TypeError, st).

(** [searchPosts()], given the value of the search box.  The no-match
    message carries the search text and a reset button, which is looked up
    by its id to give it a listener. *)
Definition searchPosts (b : Browser) (searchInput : string) : Script unit :=
  fun st =>
    let searchTerm := toLowerCase (trim searchInput) in
    if negb (truthy searchTerm) then displayPosts b (posts st) st
    else
      let filteredPosts := List.filter (matches searchTerm) (posts st) in
      match filteredPosts with
      | [] =>
          (modify (set_postsContainer (NoMatch searchTerm)) ;;
           listen_reset_search b searchTerm) st
      | _ :: _ => displayPosts b filteredPosts st
      end.

(** *** Sequences of user actions *)

Inductive action : Type :=
| Create (env : Env) (title category content : string)
| Update (postId title category content : string)
| Delete (postId : string).

(** The page after an action.  An exception thrown by a listener or a timer
    callback ends that callback only: the page goes on from the state in
    which it was thrown. *)
Definition step (b : Browser) (a : action) (st : State) : State :=
  match a with
  | Create env t c x => snd (handlePostSubmit b env t c x st)
  | Update i t c x => snd (handleEditSubmit b i t c x st)
  | Delete i => snd (deletePost b i st)
  end.

Definition run (b : Browser) (acts : list action) (st : State) : State :=
  fold_left (fun s a => step b a s) acts st.

(** Whether the form values pass the check of both submit handlers. *)
Definition accepted (title category content : string) : bool :=
  truthy (trim title) && truthy category && truthy (trim content).

(** Whether an action reaches [savePosts]. *)
Definition writes (a : action) (st : State) : bool :=
  match a with
  | Create _ t c x => accepted t c x
  | Update i t c x =>
      accepted t c x && existsb (fun p => String.eqb (id p) i) (posts st)
  | Delete _ => true
  end.

Fixpoint any_write (b : Browser) (acts : list action) (st : State) : bool :=
  match acts with
  | [] => false
  | a :: rest => writes a st || any_write b rest (step b a st)
  end.

(** ** The rest of the page

    The functions of [script.js] that the store API of the specification
    leaves out: the category filter, the single post view, the edit form, the
    delete confirmation and the theme. *)

(** A template literal that puts a value between double quotes. *)
Definition quoted (s : string) : string := JSON.dquote +:+ s +:+ JSON.dquote.

(** [filterByCategory(category)].  When no post has the category only the
    notification is raised: [postsContainer] keeps what it showed. *)
Definition filterByCategory (b : Browser) (category' : string) : Script unit :=
  fun st =>
    if String.eqb category' "all" then displayPosts b (posts st) st
    else
      let filteredPosts :=
        List.filter (fun post => String.eqb (category post) category') (posts st) in
      match filteredPosts with
      | [] =>
          modify (showNotification
                    ("No posts found in category " +:+ quoted category') "info") st
      | _ :: _ =>
          (displayPosts b filteredPosts ;;
           modify (showNotification
                     ("Showing posts in category " +:+ quoted category') "info")) st
      end.

(** [showPost(postId)]; [posts.find] gives the first post with the id. *)
Definition showPost (b : Browser) (postId : string) : Script unit :=
  fun st =>
    match List.find (fun p => String.eqb (id p) postId) (posts st) with
    | None => (mret tt : Script unit) st
    | Some post => displayPosts b [post] st
    end.

(** The values [openEditForm] assigns to the fields [edit-post-id],
    [edit-post-title], [edit-post-category] and to the content editor. *)
Record EditForm : Type := mkEditForm {
  edit_post_id : string;
  edit_post_title : string;
  edit_post_category : string;
  edit_post_content : string
}.

(** [openEditForm(postId)]: the values assigned and the form shown, or
    nothing at all when no post has the id. *)
Definition openEditForm (postId : string) (st : State) : option EditForm :=
  match List.find (fun p => String.eqb (id p) postId) (posts st) with
  | None => None
  | Some post => Some (mkEditForm (id post) (title post) (category post) (content post))
  end.

(** The delete confirmation: the global [postIdToDelete] ([None] for [null])
    and whether [confirmationModal] carries the class [hidden]. *)
Record Confirmation : Type := mkConfirmation {
  postIdToDelete : option string;
  modal_hidden : bool
}.

(** [openDeleteConfirmation(postId)] *)
Definition openDeleteConfirmation (postId : string) (c : Confirmation)
  : Confirmation :=
  mkConfirmation (Some postId) false.

(** The click listener of [cancelDeleteBtn]. *)
Definition cancelDelete (c : Confirmation) : Confirmation :=
  mkConfirmation None true.

(** The click listener of [confirmDeleteBtn]: [if (postIdToDelete)] is false
    for [null] and for the empty string.  The dialog is hidden and the id
    forgotten after [deletePost] has returned; when [deletePost] throws, the
    listener ends there and both stay as they were. *)
Definition confirmDelete (b : Browser) (c : Confirmation) (st : State)
  : outcome unit * (Confirmation * State) :=
  match postIdToDelete c with
  | Some postId =>
      if truthy postId
      then match deletePost b postId st with
           | (Return _, st1) => (Return tt, (mkConfirmation None true, st1))
           | (SyntaxError, st1) => (SyntaxError, (c, st1))
           | (TypeError, st1) => (TypeError, (c, st1))
           | (Unmodelled, st1) => (Unmodelled, (c, st1))
           | (OutOfFuel, st1) => (OutOfFuel, (c, st1))
           end
      else (Return tt, (c, st))
  | None => (Return tt, (c, st))
  end.

(** The theme: whether [document.body] carries the class [dark-theme], and
    the icon inside [themeToggle]. *)
Inductive icon : Type :=
| Moon
| Sun.

Record Theme : Type := mkTheme {
  dark_theme : bool;
  themeToggle_icon : icon
}.

(** [updateThemeIcon(isDark)] *)
Definition updateThemeIcon (isDark : bool) (th : Theme) : Theme :=
  mkTheme (dark_theme th) (if isDark then Moon else Sun).

(** [initTheme()]; [prefersDark] is what
    [window.matchMedia('(prefers-color-scheme: dark)').matches] gives. *)
Definition initTheme (prefersDark : bool) (st : State) (th : Theme) : Theme :=
  let savedTheme := localStorage st !! "blogTheme" in
  match savedTheme with
  | Some saved =>
      if truthy saved
      then updateThemeIcon (String.eqb saved "dark")
             (mkTheme (String.eqb saved "dark") (themeToggle_icon th))
      else updateThemeIcon prefersDark (mkTheme prefersDark (themeToggle_icon th))
  | None => updateThemeIcon prefersDark (mkTheme prefersDark (themeToggle_icon th))
  end.

(** [toggleTheme()]; [classList.toggle] flips the class and returns whether
    it is now present. *)
Definition toggleTheme (th : Theme) (st : State) : Theme * State :=
  let isDark := negb (dark_theme th) in
  let st1 :=
    set_localStorage
      (<["blogTheme" := if isDark then "dark" else "light"]> (localStorage st)) st in
  (updateThemeIcon isDark (mkTheme isDark (themeToggle_icon th)), st1).

(** ** Vocabulary of the properties *)

(** The longest prefix of a list whose elements pass a test. *)
Fixpoint prefix_while {A : Type} (f : A -> bool) (l : list A) : list A :=
  match l with
  | [] => []
  | x :: l' => if f x then x :: prefix_while f l' else []
  end.

(** Both buttons of the card of a post are found. *)
Definition card (b : Browser) (post : Post) : bool :=
  edit_btn b post && delete_btn b post.

(** Every card of a list of posts has its buttons. *)
Definition cards_ok (b : Browser) (ps : list Post) : bool := forallb (card b) ps.

(** The [categories] object [updateCategoriesList] builds from [posts]. *)
Definition categories_of (ps : list Post) : list (string * count) :=
  fold_left count_post ps [].

Definition entry_link (b : Browser) (kv : string * count) : bool :=
  category_link b kv.1 kv.2.

(** The link of every category of a list of posts is found. *)
Definition links_ok (b : Browser) (ps : list Post) : bool :=
  forallb (entry_link b) (categories_of ps).

(** The link of each of the first five posts is found. *)
Definition recent_ok (b : Browser) (ps : list Post) : bool :=
  forallb (recent_post_link b) (take 5 ps).

(** Nothing throws while a collection is rendered: the cards, the category
    links and the recent links all have the elements looked up in them. *)
Definition page_ok (b : Browser) (ps : list Post) : bool :=
  cards_ok b ps && links_ok b ps && recent_ok b ps.

(** What [postsContainer] holds after [displayPosts(ps)], returned or
    thrown. *)
Definition displayed (b : Browser) (ps : list Post) : container :=
  match ps with
  | [] => NoPosts
  | _ :: _ => Cards (prefix_while (card b) ps)
  end.

(** What [categoriesList] holds after [updateCategoriesList()] on the
    collection [ps], returned or thrown. *)
Definition category_links (b : Browser) (ps : list Post) : list CategoryLink :=
  let items :=
    map (fun kv => mkLink kv.1 kv.1 kv.2) (prefix_while (entry_link b) (categories_of ps)) in
  if links_ok b ps
  then match categories_of ps with
       | [] => items
       | _ :: _ => mkLink "all" "All" (Num (N.of_nat (List.length ps))) :: items
       end
  else items.

(** What [recentPostsList] holds after [updateRecentPostsList()] on the
    collection [ps], returned or thrown. *)
Definition recent_links (b : Browser) (ps : list Post) : list RecentLink :=
  map (fun post => mkRecent (id post) (title post))
      (prefix_while (recent_post_link b) (take 5 ps)).

(** How a call that renders ends. *)
Definition thrown_unless (ok : bool) : outcome unit :=
  if ok then Return tt else TypeError.

(** The state after the three rendering calls that end [loadPosts] and
    [savePosts]: the side bar lists are reached only when nothing threw
    before them. *)
Definition rendered (b : Browser) (st : State) : State :=
  let ps := posts st in
  mkState ps (localStorage st) (displayed b ps)
    (if cards_ok b ps then category_links b ps else categoriesList st)
    (if cards_ok b ps && links_ok b ps then recent_links b ps
     else recentPostsList st)
    (notifications st).

(** The state is synchronised when the stored text is the serialisation of
    the collection in memory. *)
Definition synced (st : State) : Prop :=
  localStorage st !! "blogPosts" = Some (JSON_stringify (posts st)).

(** [t] occurs in [s] as a substring. *)
Definition substring_of (t s : string) : Prop :=
  exists a b, s = a +:+ t +:+ b.

(** A field is blank when nothing is left after trimming. *)
Definition blank (s : string) : bool := negb (truthy (trim s)).

(** Position at which a category is first encountered. *)
Definition first_seen (c : string) (cs : list string) : option nat :=
  findIndex (String.eqb c) cs.

(** Every counter of a [categories] object is a number. *)
Definition all_num (o : list (string * count)) : Prop :=
  Forall (fun kv => exists n, kv.2 = Num n) o.

(** Number of posts of a category. *)
Definition tally (c : string) (ps : list Post) : N :=
  N.of_nat (List.length (List.filter (fun p => String.eqb (category p) c) ps)).

(** The distinct categories of a sequence, in order of first encounter. *)
Fixpoint first_encounter (cs : list string) : list string :=
  match cs with
  | [] => []
  | c :: cs' => c :: filter (fun d => d <> c) (first_encounter cs')
  end.

(** Categories the [categories] object counts in order of creation:
    neither array indices nor names found on [Object.prototype]. *)
Definition plain (c : string) : bool :=
  match JSObject.array_index c with
  | Some _ => false
  | None => negb (inherited c) && negb (String.eqb c "__proto__")
  end.

(** A post as the two submit handlers leave it: the three fields are not
    empty, and the title and the content carry no surrounding white space. *)
Definition well_formed (p : Post) : Prop :=
  truthy (title p) = true /\ truthy (category p) = true
  /\ truthy (content p) = true
  /\ trim (title p) = title p /\ trim (content p) = content p.

(** The counts of a list of category links, added up. *)
Definition sum_counts (links : list CategoryLink) : N :=
  fold_right (fun l acc => match category_count l with
                           | Num n => n + acc
                           | Text _ _ => acc
                           end) 0 links.

(** *** The examples

    Text made of letters, digits and spaces holds nothing an HTML parser or
    [marked] treats specially: put into the templates of the script, it
    leaves the markup as the template spells it, and every element looked up
    is found. *)
Definition is_plain_char (c : ascii) : bool :=
  let n := code c in
  ((48 <=? n) && (n <=? 57)) || ((65 <=? n) && (n <=? 90))
  || ((97 <=? n) && (n <=? 122)) || (n =? 32).

Fixpoint plain_text (s : string) : bool :=
  match s with
  | EmptyString => true
  | String c r => is_plain_char c && plain_text r
  end.

(** The browser of the examples.  It finds every element looked up in markup
    made from plain text.  On other text it answers that the element is
    missing; a browser answers so for the title [<!--] between plain fields,
    which opens a comment that runs to the end of the card, and the examples
    consult it on no other text that is not plain.  The date shown on a card
    is the output of [toLocaleDateString] and does not count, and the link of
    a recent post is complete before its title starts. *)
Definition examples_browser : Browser :=
  {| edit_btn p :=
       plain_text (id p) && plain_text (title p) && plain_text (category p)
       && plain_text (content p);
     delete_btn p :=
       plain_text (id p) && plain_text (title p) && plain_text (category p)
       && plain_text (content p);
     category_link c _ := plain_text c;
     recent_post_link p := plain_text (id p);
     reset_search _ t := plain_text t |}.

(** The scenario of section 8 of the specification, newest first. *)
Definition post_a : Post := mkPost "a" "Hello World" "Tech" "foo" "2024-01-01T00:00:00.000Z".
Definition post_b : Post := mkPost "b" "Cooking" "Food" "bar" "2024-01-02T00:00:00.000Z".
Definition scenario : State :=
  snd (savePosts examples_browser (set_posts [post_b; post_a] (initial ∅))).

(** A post whose title opens a comment. *)
Definition post_c : Post := mkPost "c" "<!--" "Tech" "baz" "2024-01-03T00:00:00.000Z".

(** * Properties *)

(* Closes the cases in which a parser stops with a syntax error. *)
Ltac stuck := split; [discriminate | intros; discriminate].

(** ** Strings *)

Lemma append_empty_r (s : string) : s +:+ EmptyString = s.
Proof. induction s as [|c s IH]; simpl; [reflexivity | now rewrite IH]. Qed.

Lemma append_assoc (a b c : string) : (a +:+ b) +:+ c = a +:+ (b +:+ c).
Proof. induction a as [|x a IH]; simpl; [reflexivity | now rewrite IH]. Qed.

Lemma truthy_empty (s : string) : truthy s = false <-> s = EmptyString.
Proof. destruct s; simpl; split; intros H; congruence. Qed.

Lemma trimEnd_empty_of_truthy (s : string) :
  truthy (trimEnd s) = true -> truthy s = true.
Proof. destruct s; simpl; [discriminate | reflexivity]. Qed.

Lemma trimStart_truthy (s : string) :
  truthy (trimStart s) = true -> truthy s = true.
Proof. destruct s; simpl; [discriminate | reflexivity]. Qed.

(** A field that is not blank is not empty before trimming either. *)
Lemma truthy_trim (s : string) : truthy (trim s) = true -> truthy s = true.
Proof.
  unfold trim. intros H.
  apply trimStart_truthy, trimEnd_empty_of_truthy, H.
Qed.

Lemma truthy_toLowerCase (s : string) : truthy (toLowerCase s) = truthy s.
Proof. destruct s; reflexivity. Qed.

Lemma startsWith_spec (s t : string) :
  startsWith s t = true <-> exists b, s = t +:+ b.
Proof.
  revert s. induction t as [|c t IH]; intros s; simpl.
  - split; [intros _; now exists s | reflexivity].
  - destruct s as [|a s]; simpl.
    + split; [discriminate | intros [b Hb]; discriminate].
    + rewrite andb_true_iff, Ascii.eqb_eq, IH. split.
      * intros [-> [b ->]]. now exists b.
      * intros [b Hb]. injection Hb as -> ->. split; [reflexivity | now exists b].
Qed.

(** [includes] decides the substring relation. *)
Lemma includes_spec (s t : string) :
  includes s t = true <-> substring_of t s.
Proof.
  unfold substring_of. induction s as [|c s IH].
  - cbn [includes]. rewrite orb_false_r, startsWith_spec. split.
    + intros [b Hb]. now exists EmptyString, b.
    + intros [[|x a] [b Hb]]; [now exists b | discriminate].
  - cbn [includes]. rewrite orb_true_iff, startsWith_spec, IH. split.
    + intros [[b Hb] | [a [b Hb]]].
      * now exists EmptyString, b.
      * exists (String c a), b. simpl. now rewrite Hb.
    + intros [[|x a] [b Hb]].
      * left. now exists b.
      * right. simpl in Hb. injection Hb as -> ->. now exists a, b.
Qed.

Lemma matches_spec (term : string) (p : Post) :
  matches term p = true <->
  substring_of term (toLowerCase (title p))
  \/ substring_of term (toLowerCase (content p)).
Proof. unfold matches. now rewrite orb_true_iff, !includes_spec. Qed.

(** ** The state after each call

    Each call that renders is described by how it ends and the state it
    leaves, whether it returned or threw. *)

Lemma forallb_prefix_while {A : Type} (f : A -> bool) (l : list A) :
  forallb f l = true -> prefix_while f l = l.
Proof.
  induction l as [|x l IH]; simpl; [reflexivity|].
  destruct (f x); simpl; [|discriminate]. intros H. now rewrite IH.
Qed.

Lemma sublist_prefix_while {A : Type} (f : A -> bool) (l : list A) :
  sublist (prefix_while f l) l.
Proof.
  induction l as [|x l IH]; simpl; [constructor|].
  destruct (f x); [now constructor | apply sublist_nil_l].
Qed.

Lemma displayPosts_forEach_run (b : Browser) (ps l : list Post) (st : State) :
  displayPosts_forEach b ps (set_postsContainer (Cards l) st)
  = (thrown_unless (cards_ok b ps),
     set_postsContainer (Cards (l ++ prefix_while (card b) ps)) st).
Proof.
  revert l. induction ps as [|p ps IH]; intros l.
  - simpl. now rewrite app_nil_r.
  - cbn [displayPosts_forEach cards_ok forallb prefix_while]. unfold card at 1 3.
    destruct (edit_btn b p); [|simpl; now rewrite app_nil_r].
    destruct (delete_btn b p); [|simpl; now rewrite app_nil_r].
    cbn [andb]. unfold mbind, Script_bind, modify.
    change (appendChild_post p (set_postsContainer (Cards l) st))
      with (set_postsContainer (Cards (l ++ [p])) st).
    rewrite IH. unfold cards_ok. now rewrite <- app_assoc.
Qed.

(** [displayPosts] throws exactly when a card lacks a button, and leaves in
    the container the cards before the first such card. *)
Lemma displayPosts_run (b : Browser) (ps : list Post) (st : State) :
  displayPosts b ps st
  = (thrown_unless (cards_ok b ps), set_postsContainer (displayed b ps) st).
Proof.
  unfold displayPosts, mbind, Script_bind, modify. destruct ps as [|p ps]; [reflexivity|].
  apply (displayPosts_forEach_run b (p :: ps) [] st).
Qed.

Lemma categories_forEach_run (b : Browser) (entries : list (string * count))
    (l : list CategoryLink) (st : State) :
  categories_forEach b entries (set_categoriesList l st)
  = (thrown_unless (forallb (entry_link b) entries),
     set_categoriesList
       (l ++ map (fun kv => mkLink kv.1 kv.1 kv.2) (prefix_while (entry_link b) entries))
       st).
Proof.
  revert l. induction entries as [|[c n] entries IH]; intros l.
  - simpl. now rewrite app_nil_r.
  - cbn [categories_forEach forallb prefix_while]. unfold entry_link at 1 3. cbn [fst snd].
    destruct (category_link b c n); [|simpl; now rewrite app_nil_r].
    cbn [andb]. unfold mbind, Script_bind, modify.
    change (appendChild_category (mkLink c c n) (set_categoriesList l st))
      with (set_categoriesList (l ++ [mkLink c c n]) st).
    rewrite IH. cbn [map fst snd]. now rewrite <- app_assoc.
Qed.

(** [updateCategoriesList] throws exactly when the link of a category is not
    found, and then leaves the links before it and no [All] link. *)
Lemma updateCategoriesList_run (b : Browser) (st : State) :
  updateCategoriesList b st
  = (thrown_unless (links_ok b (posts st)),
     set_categoriesList (category_links b (posts st)) st).
Proof.
  unfold updateCategoriesList, mbind, Script_bind, modify.
  change (fold_left count_post (posts st) []) with (categories_of (posts st)).
  rewrite (categories_forEach_run b (categories_of (posts st)) [] st).
  unfold category_links, links_ok. cbn [app].
  destruct (forallb (entry_link b) (categories_of (posts st))); cbn [thrown_unless];
    [|reflexivity].
  destruct (categories_of (posts st)); reflexivity.
Qed.

Lemma recentPosts_forEach_run (b : Browser) (ps : list Post)
    (l : list RecentLink) (st : State) :
  recentPosts_forEach b ps (set_recentPostsList l st)
  = (thrown_unless (forallb (recent_post_link b) ps),
     set_recentPostsList
       (l ++ map (fun post => mkRecent (id post) (title post))
                 (prefix_while (recent_post_link b) ps)) st).
Proof.
  revert l. induction ps as [|p ps IH]; intros l.
  - simpl. now rewrite app_nil_r.
  - cbn [recentPosts_forEach forallb prefix_while].
    destruct (recent_post_link b p); [|simpl; now rewrite app_nil_r].
    cbn [andb]. unfold mbind, Script_bind, modify.
    change (appendChild_recent (mkRecent (id p) (title p)) (set_recentPostsList l st))
      with (set_recentPostsList (l ++ [mkRecent (id p) (title p)]) st).
    rewrite IH. cbn [map]. now rewrite <- app_assoc.
Qed.

Lemma updateRecentPostsList_run (b : Browser) (st : State) :
  updateRecentPostsList b st
  = (thrown_unless (recent_ok b (posts st)),
     set_recentPostsList (recent_links b (posts st)) st).
Proof.
  unfold updateRecentPostsList, mbind, Script_bind, modify.
  apply (recentPosts_forEach_run b (take 5 (posts st)) [] st).
Qed.

(** The three rendering calls in a row: the first that throws ends them. *)
Lemma render_run (b : Browser) (st : State) :
  render b st = (thrown_unless (page_ok b (posts st)), rendered b st).
Proof.
  unfold render, mbind, Script_bind. rewrite displayPosts_run.
  unfold page_ok, rendered.
  destruct (cards_ok b (posts st)); cbn [thrown_unless andb]; [|reflexivity].
  rewrite updateCategoriesList_run. cbn [posts set_postsContainer].
  destruct (links_ok b (posts st)); cbn [thrown_unless andb]; [|reflexivity].
  rewrite updateRecentPostsList_run. reflexivity.
Qed.

(** [savePosts] stores the collection, then renders it. *)
Lemma savePosts_run (b : Browser) (st : State) :
  savePosts b st
  = (thrown_unless (page_ok b (posts st)), rendered b (setItem_blogPosts st)).
Proof.
  unfold savePosts, mbind, Script_bind, modify. now rewrite render_run.
Qed.

Lemma shown_displayed (b : Browser) (ps : list Post) :
  shown (displayed b ps) = prefix_while (card b) ps.
Proof. now destruct ps. Qed.

Lemma shown_displayed_ok (b : Browser) (ps : list Post) :
  cards_ok b ps = true -> shown (displayed b ps) = ps.
Proof. intros H. rewrite shown_displayed. now apply forallb_prefix_while. Qed.

Lemma page_ok_cards (b : Browser) (ps : list Post) :
  page_ok b ps = true -> cards_ok b ps = true.
Proof. unfold page_ok. intros H. now apply andb_true_iff in H as [H%andb_true_iff _]. Qed.

(** Rendering again what is rendered changes nothing. *)
Lemma rendered_setItem_idem (b : Browser) (st : State) :
  rendered b (setItem_blogPosts (rendered b (setItem_blogPosts st)))
  = rendered b (setItem_blogPosts st).
Proof.
  unfold rendered, setItem_blogPosts, set_localStorage.
  cbn [posts localStorage postsContainer categoriesList recentPostsList notifications].
  rewrite insert_insert_eq.
  destruct (cards_ok b (posts st)), (links_ok b (posts st)); reflexivity.
Qed.

(** ** Filtering and searching a list of posts *)

Lemma filter_bool_prop {A : Type} (f : A -> bool) (P : A -> Prop)
    `{!forall x, Decision (P x)} (l : list A) :
  (forall x, f x = true <-> P x) -> List.filter f l = filter P l.
Proof.
  intros Hf. induction l as [|x l IH]; [reflexivity|].
  simpl. rewrite filter_cons. destruct (f x) eqn:E.
  - rewrite decide_True by (now apply Hf). now rewrite IH.
  - rewrite decide_False; [exact IH|]. intros HP. apply Hf in HP. congruence.
Qed.

Lemma eqb_neq_iff (a b : string) : negb (String.eqb a b) = true <-> a <> b.
Proof. rewrite negb_true_iff. apply String.eqb_neq. Qed.

Lemma findIndex_Some {A : Type} (f : A -> bool) (l : list A) (i : nat) :
  findIndex f l = Some i <->
  exists x, l !! i = Some x /\ f x = true
            /\ forall j y, (j < i)%nat -> l !! j = Some y -> f y = false.
Proof.
  revert i. induction l as [|a l IH]; intros i; simpl.
  - split; [discriminate | intros [x [Hx _]]; discriminate].
  - destruct (f a) eqn:Ea.
    + split.
      * intros [= <-]. exists a. repeat split; [exact Ea|]. intros j y Hj. lia.
      * intros [x [Hx [Hfx Hfirst]]]. destruct i as [|i]; [reflexivity|].
        specialize (Hfirst O a ltac:(lia) eq_refl). congruence.
    + destruct (findIndex f l) as [k|] eqn:Ek; simpl.
      * split.
        -- intros [= <-]. destruct (proj1 (IH k) eq_refl) as [x [Hx [Hfx Hfirst]]].
           exists x. repeat split; [exact Hx | exact Hfx |].
           intros [|j] y Hj Hy; simpl in Hy; [congruence|].
           apply (Hfirst j y); [lia | exact Hy].
        -- intros [x [Hx [Hfx Hfirst]]]. destruct i as [|i]; simpl in Hx; [congruence|].
           f_equal. assert (Some k = Some i) as [= ->]; [|reflexivity].
           apply IH. exists x. repeat split; [exact Hx | exact Hfx |].
           intros j y Hj Hy. apply (Hfirst (S j) y); [lia | exact Hy].
      * split; [discriminate|].
        intros [x [Hx [Hfx Hfirst]]]. destruct i as [|i]; simpl in Hx; [congruence|].
        assert (None = Some i) as Habs; [|discriminate].
        apply IH. exists x. repeat split; [exact Hx | exact Hfx |].
        intros j y Hj Hy. apply (Hfirst (S j) y); [lia | exact Hy].
Qed.

Lemma findIndex_None {A : Type} (f : A -> bool) (l : list A) :
  findIndex f l = None <-> existsb f l = false.
Proof.
  induction l as [|a l IH]; simpl; [tauto|].
  destruct (f a); simpl; [split; discriminate|].
  destruct (findIndex f l); simpl; [|tauto].
  split; [discriminate|]. intros H. apply IH in H. discriminate.
Qed.

Lemma existsb_id_false (postId : string) (ps : list Post) :
  existsb (fun p => String.eqb (id p) postId) ps = false <->
  forall p, p ∈ ps -> id p <> postId.
Proof.
  induction ps as [|q ps IH]; simpl.
  - split; [intros _ p Hp; inversion Hp | reflexivity].
  - rewrite orb_false_iff, IH, String.eqb_neq. split.
    + intros [Hq Hps] p Hp. apply elem_of_cons in Hp as [->|Hp]; auto.
    + intros H. split; [apply H; left | intros p Hp; apply H; now right].
Qed.

(** ** Deleting *)

Lemma filter_out_posts (postId : string) (st : State) :
  posts (filter_out postId st) = filter (fun p => id p <> postId) (posts st).
Proof. apply filter_bool_prop. intros p. apply eqb_neq_iff. Qed.

(** [deletePost] in one step: the collection is filtered and stored, then
    rendered; the notification is raised when the rendering returned. *)
Lemma deletePost_run (b : Browser) (postId : string) (st : State) :
  deletePost b postId st
  = let st1 := rendered b (setItem_blogPosts (filter_out postId st)) in
    if page_ok b (posts st1)
    then (Return Undefined, showNotification "Post deleted successfully!" "success" st1)
    else (TypeError, st1).
Proof.
  unfold deletePost, mbind, Script_bind, modify. rewrite savePosts_run.
  cbn zeta. cbn [posts rendered setItem_blogPosts set_localStorage].
  now destruct (page_ok b (posts (filter_out postId st))).
Qed.

Lemma posts_deletePost (b : Browser) (postId : string) (st : State) :
  posts (snd (deletePost b postId st))
  = filter (fun p => id p <> postId) (posts st).
Proof.
  rewrite deletePost_run. cbn zeta. rewrite <- filter_out_posts.
  now destruct (page_ok b _).
Qed.

Lemma localStorage_deletePost (b : Browser) (postId : string) (st : State) :
  localStorage (snd (deletePost b postId st))
  = <["blogPosts" := JSON_stringify (posts (snd (deletePost b postId st)))]>
      (localStorage st).
Proof.
  rewrite deletePost_run. cbn zeta. now destruct (page_ok b _).
Qed.

Lemma postsContainer_deletePost (b : Browser) (postId : string) (st : State) :
  postsContainer (snd (deletePost b postId st))
  = displayed b (posts (snd (deletePost b postId st))).
Proof.
  rewrite deletePost_run. cbn zeta. now destruct (page_ok b _).
Qed.

Lemma fst_deletePost (b : Browser) (postId : string) (st : State) :
  fst (deletePost b postId st)
  = if page_ok b (posts (snd (deletePost b postId st)))
    then Return Undefined else TypeError.
Proof.
  rewrite deletePost_run. cbn zeta. set (st1 := rendered b _).
  destruct (page_ok b (posts st1)) eqn:E; cbn [fst snd posts notifications showNotification];
    now rewrite E.
Qed.

Lemma notifications_deletePost (b : Browser) (postId : string) (st : State) :
  notifications (snd (deletePost b postId st))
  = if page_ok b (posts (snd (deletePost b postId st)))
    then notifications st ++ [("Post deleted successfully!", "success")]
    else notifications st.
Proof.
  rewrite deletePost_run. cbn zeta. set (st1 := rendered b _).
  destruct (page_ok b (posts st1)) eqn:E; cbn [fst snd posts notifications showNotification];
    now rewrite E.
Qed.

Lemma filter_absent (postId : string) (ps : list Post) :
  (forall p, p ∈ ps -> id p <> postId) <->
  filter (fun p => id p <> postId) ps = ps.
Proof.
  induction ps as [|q ps IH].
  - split; [reflexivity | intros _ p Hp; inversion Hp].
  - rewrite filter_cons. destruct (decide (id q <> postId)) as [Hq|Hq].
    + split.
      * intros H. f_equal. apply IH. intros p Hp. apply H. now right.
      * intros [= H] p Hp. apply elem_of_cons in Hp as [->|Hp]; [exact Hq|].
        now apply (proj2 IH H).
    + split.
      * intros H. exfalso. apply Hq, H. left.
      * intros H. exfalso.
        assert (Hlen : List.length (filter (fun p => id p <> postId) ps)
                       = List.length (q :: ps)) by now rewrite H.
        pose proof (length_filter (fun p => id p <> postId) ps) as Hle. simpl in Hlen. lia.
Qed.

(** C10. After [deletePost(postId)] no post with that id is left, however many
    posts carried it; the posts with another id are kept, in their order and
    with their fields; and the collection that results is written under
    [blogPosts] on every call, also when nothing was removed. *)
Theorem deletePost_removes_every_match (b : Browser) (postId : string) (st : State) :
  let st' := snd (deletePost b postId st) in
  Forall (fun p => id p <> postId) (posts st')
  /\ posts st' = filter (fun p => id p <> postId) (posts st)
  /\ sublist (posts st') (posts st)
  /\ localStorage st' !! "blogPosts" = Some (JSON_stringify (posts st')).
Proof.
  intros st'. pose proof (posts_deletePost b postId st) as Hp. fold st' in Hp.
  repeat split.
  - rewrite Hp. apply Forall_forall. intros p Hin.
    now apply list_elem_of_filter in Hin as [Hne _].
  - exact Hp.
  - rewrite Hp. apply sublist_filter.
  - subst st'. rewrite localStorage_deletePost. apply lookup_insert_eq.
Qed.

(** C7, as the code has it.  [deletePost] removes the posts with the given
    id and stores the result; the collection is left as it was exactly when no
    post has that id.  It then renders the page.  When that returns, the call
    evaluates to [undefined] and raises the same success notification whether
    or not a post was removed; when a card or a link lacks the element looked
    up in it, the call throws a TypeError instead and raises no notification.
    A second call with the same id ends as the first did and leaves the
    collection, the stored text and the displayed posts as the first call left
    them. *)
Theorem deletePost_twice (b : Browser) (postId : string) (st : State) :
  let r1 := deletePost b postId st in
  let r2 := deletePost b postId (snd r1) in
  let remaining := filter (fun p => id p <> postId) (posts st) in
  posts (snd r1) = remaining
  /\ ((forall p, p ∈ posts st -> id p <> postId) <-> posts (snd r1) = posts st)
  /\ fst r1 = (if page_ok b remaining then Return Undefined else TypeError)
  /\ notifications (snd r1)
     = (if page_ok b remaining
        then notifications st ++ [("Post deleted successfully!", "success")]
        else notifications st)
  /\ fst r2 = fst r1
  /\ posts (snd r2) = posts (snd r1)
  /\ localStorage (snd r2) = localStorage (snd r1)
  /\ postsContainer (snd r2) = postsContainer (snd r1).
Proof.
  intros r1 r2 remaining.
  assert (H1 : posts (snd r1) = remaining) by apply posts_deletePost.
  assert (H2 : posts (snd r2) = posts (snd r1)).
  { subst r2. rewrite posts_deletePost. apply filter_absent.
    intros p Hin. rewrite H1 in Hin. now apply list_elem_of_filter in Hin as [Hne _]. }
  split; [exact H1|]. split; [rewrite H1; apply filter_absent|].
  split; [subst r1; now rewrite fst_deletePost, H1|].
  split; [subst r1; now rewrite notifications_deletePost, H1|].
  split; [subst r2; rewrite fst_deletePost, H2; subst r1; now rewrite fst_deletePost|].
  split; [exact H2|]. split.
  - subst r2. rewrite localStorage_deletePost, H2.
    subst r1. rewrite localStorage_deletePost. apply insert_insert_eq.
  - subst r2. rewrite postsContainer_deletePost, H2.
    subst r1. now rewrite postsContainer_deletePost.
Qed.

(** C7, counterexample.  On the two posts of the scenario [deletePost("a")]
    removes post [a] and returns, and the call evaluates to [undefined], not
    to [true]. *)
Lemma deletePost_returns_no_boolean :
  (post_a ∈ posts scenario)
  /\ (post_a ∉ posts (snd (deletePost examples_browser "a" scenario)))
  /\ fst (deletePost examples_browser "a" scenario) = Return Undefined
  /\ fst (deletePost examples_browser "a" scenario) <> Return (Boolean true).
Proof.
  split; [|split; [|split]].
  - right. left.
  - intros H. rewrite posts_deletePost in H.
    apply list_elem_of_filter in H as [Hne _]. now apply Hne.
  - reflexivity.
  - discriminate.
Qed.

(** ** Searching *)

(** [searchPosts] in one step. *)
Lemma searchPosts_run (b : Browser) (searchInput : string) (st : State) :
  searchPosts b searchInput st
  = let searchTerm := toLowerCase (trim searchInput) in
    if truthy (trim searchInput)
    then match List.filter (matches searchTerm) (posts st) with
         | [] => (thrown_unless
                    (reset_search b (set_postsContainer (NoMatch searchTerm) st) searchTerm),
                  set_postsContainer (NoMatch searchTerm) st)
         | hits => (thrown_unless (cards_ok b hits),
                    set_postsContainer (displayed b hits) st)
         end
    else (thrown_unless (cards_ok b (posts st)),
          set_postsContainer (displayed b (posts st)) st).
Proof.
  unfold searchPosts. cbn zeta. rewrite truthy_toLowerCase.
  destruct (truthy (trim searchInput)); cbn [negb]; [|apply displayPosts_run].
  destruct (List.filter _ (posts st)) as [|p hits]; [|apply displayPosts_run].
  unfold mbind, Script_bind, modify, listen_reset_search.
  now destruct (reset_search b _ (toLowerCase (trim searchInput))).
Qed.

(** C8, as the code has it.  [searchPosts] selects the whole collection when
    the trimmed text of the search box is empty; otherwise it selects exactly
    the posts, in order, whose lower-cased title or lower-cased content
    contains the lower-cased *trimmed* text as a substring.  It displays the
    selected posts up to the first whose card lacks a button, on which
    [displayPosts] throws: all of them, and the call returns, when every card
    has its buttons.  The collection, the stored text and the notifications
    are left as they were. *)
Theorem searchPosts_shows (b : Browser) (searchInput : string) (st : State) :
  let r := searchPosts b searchInput st in
  let searchTerm := toLowerCase (trim searchInput) in
  let selected :=
    if truthy (trim searchInput)
    then List.filter (matches searchTerm) (posts st)
    else posts st in
  (forall p, matches searchTerm p = true <->
             substring_of searchTerm (toLowerCase (title p))
             \/ substring_of searchTerm (toLowerCase (content p)))
  /\ sublist selected (posts st)
  /\ shown (postsContainer (snd r)) = prefix_while (card b) selected
  /\ (cards_ok b selected = true -> shown (postsContainer (snd r)) = selected)
  /\ fst r
     = thrown_unless
         (match selected with
          | [] =>
              negb (truthy (trim searchInput))
              || reset_search b (set_postsContainer (NoMatch searchTerm) st) searchTerm
          | _ :: _ => cards_ok b selected
          end)
  /\ posts (snd r) = posts st
  /\ localStorage (snd r) = localStorage st
  /\ notifications (snd r) = notifications st.
Proof.
  intros r searchTerm selected.
  split; [apply matches_spec|].
  split.
  { subst selected. destruct (truthy (trim searchInput)); [|reflexivity].
    rewrite (filter_bool_prop _ (fun p => matches searchTerm p = true));
      [apply sublist_filter | tauto]. }
  assert (Hshown : shown (postsContainer (snd r)) = prefix_while (card b) selected).
  { subst r selected. rewrite searchPosts_run. cbn zeta. fold searchTerm.
    destruct (truthy (trim searchInput)).
    - destruct (List.filter _ (posts st)) as [|p hits]; [reflexivity|].
      cbn [snd postsContainer set_postsContainer]. apply shown_displayed.
    - cbn [snd postsContainer set_postsContainer]. apply shown_displayed. }
  split; [exact Hshown|].
  split; [intros Hok; rewrite Hshown; now apply forallb_prefix_while|].
  subst r selected. rewrite searchPosts_run. cbn zeta. fold searchTerm.
  destruct (truthy (trim searchInput)); cbn [negb orb].
  - destruct (List.filter _ (posts st)) as [|p hits]; repeat split.
  - replace (match posts st with [] => true | _ :: _ => cards_ok b (posts st) end)
      with (cards_ok b (posts st)) by now destruct (posts st).
    repeat split.
Qed.

(** C8, counterexample.  The search box holds [hello] after one space.  The
    trimmed text is not empty and post [a] is shown, although neither its
    lower-cased title nor its lower-cased content contains the lower-cased
    text of the box, space included. *)
Lemma searchPosts_matches_trimmed_term :
  truthy (trim " hello") = true
  /\ searchPosts examples_browser " hello" scenario
     = (Return tt, set_postsContainer (Cards [post_a]) scenario)
  /\ ~ substring_of (toLowerCase " hello") (toLowerCase (title post_a))
  /\ ~ substring_of (toLowerCase " hello") (toLowerCase (content post_a)).
Proof.
  split; [reflexivity|]. split; [reflexivity|].
  split; intros H; apply includes_spec in H; discriminate H.
Qed.

(** The searches of the scenario: [hello] finds post [a] through its title;
    an empty box shows both posts. *)
Lemma searchPosts_scenario :
  shown (postsContainer (snd (searchPosts examples_browser "hello" scenario))) = [post_a]
  /\ shown (postsContainer (snd (searchPosts examples_browser "   " scenario)))
     = [post_b; post_a].
Proof. split; reflexivity. Qed.

(** A search that finds only a post whose title opens a comment throws on its
    card and leaves the container empty. *)
Lemma searchPosts_throws_on_comment_title :
  let st := set_posts [post_c; post_a] (initial ∅) in
  searchPosts examples_browser "baz" st
  = (TypeError, set_postsContainer (Cards []) st).
Proof. reflexivity. Qed.

(** ** Validation *)

Lemma accepted_false (t c x : string) :
  blank t = true \/ truthy c = false \/ blank x = true -> accepted t c x = false.
Proof.
  unfold blank, accepted. intros [H | [H | H]].
  - apply negb_true_iff in H. now rewrite H.
  - rewrite H. now rewrite andb_false_r.
  - apply negb_true_iff in H. rewrite H. now rewrite andb_false_r.
Qed.

Lemma accepted_true (t c x : string) :
  blank t = false -> blank c = false -> blank x = false -> accepted t c x = true.
Proof.
  unfold blank, accepted. intros Ht Hc Hx.
  apply negb_false_iff in Ht, Hc, Hx. rewrite Ht, Hx, (truthy_trim c Hc). reflexivity.
Qed.

Lemma handlePostSubmit_unfold (b : Browser) (env : Env) (t c x : string) (st : State) :
  handlePostSubmit b env t c x st
  = if accepted t c x
    then handlePostSubmit_timeout b env (trim t) c (trim x) st
    else (Return tt, showNotification "Please fill all fields" "error" st).
Proof.
  unfold handlePostSubmit, accepted.
  destruct (truthy (trim t)), (truthy c), (truthy (trim x)); reflexivity.
Qed.

Lemma handleEditSubmit_unfold (b : Browser) (postId t c x : string) (st : State) :
  handleEditSubmit b postId t c x st
  = if accepted t c x
    then handleEditSubmit_timeout b postId (trim t) c (trim x) st
    else (Return tt, showNotification "Please fill all fields" "error" st).
Proof.
  unfold handleEditSubmit, accepted.
  destruct (truthy (trim t)), (truthy c), (truthy (trim x)); reflexivity.
Qed.

(** The callback of [handlePostSubmit] in one step. *)
Lemma handlePostSubmit_timeout_run
    (b : Browser) (env : Env) (t c x : string) (st : State) :
  handlePostSubmit_timeout b env t c x st
  = let newPost := mkPost (generateUniqueId env) t c x (Date_toISOString env) in
    let st1 := rendered b (setItem_blogPosts (unshift newPost st)) in
    if page_ok b (newPost :: posts st)
    then (Return tt, showNotification "Post published successfully!" "success" st1)
    else (TypeError, st1).
Proof.
  unfold handlePostSubmit_timeout, mbind, Script_bind, modify. rewrite savePosts_run.
  cbn zeta. cbn [posts unshift set_posts].
  now destruct (page_ok b _).
Qed.

(** The callback of [handleEditSubmit] in one step. *)
Lemma handleEditSubmit_timeout_run
    (b : Browser) (postId t c x : string) (st : State) :
  handleEditSubmit_timeout b postId t c x st
  = match findIndex (fun p => String.eqb (id p) postId) (posts st) with
    | None => (Return tt, st)
    | Some i =>
        let st1 := rendered b (setItem_blogPosts (assign_post i t c x st)) in
        if page_ok b (posts st1)
        then (Return tt, showNotification "Post updated successfully!" "success" st1)
        else (TypeError, st1)
    end.
Proof.
  unfold handleEditSubmit_timeout.
  destruct (findIndex _ (posts st)) as [i|]; [|reflexivity].
  unfold mbind, Script_bind, modify. rewrite savePosts_run.
  cbn zeta. cbn [posts rendered setItem_blogPosts set_localStorage].
  now destruct (page_ok b _).
Qed.

(** C6, as the code has it.  When the title or the content is empty after
    trimming, or the category is the empty string (the category is not
    trimmed), both submit handlers only raise the error notification and
    return: the collection, the stored text and the displayed posts are
    untouched. *)
Theorem submit_rejected (b : Browser) (env : Env) (postId t c x : string) (st : State) :
  blank t = true \/ truthy c = false \/ blank x = true ->
  handlePostSubmit b env t c x st
  = (Return tt, showNotification "Please fill all fields" "error" st)
  /\ handleEditSubmit b postId t c x st
     = (Return tt, showNotification "Please fill all fields" "error" st)
  /\ posts (showNotification "Please fill all fields" "error" st) = posts st
  /\ localStorage (showNotification "Please fill all fields" "error" st)
     = localStorage st
  /\ postsContainer (showNotification "Please fill all fields" "error" st)
     = postsContainer st.
Proof.
  intros H. apply accepted_false in H.
  rewrite handlePostSubmit_unfold, handleEditSubmit_unfold, H. auto.
Qed.

(** The rejection, on a title of three spaces. *)
Lemma submit_rejected_witness :
  let env := mkEnv 1700000000000 "0.4fzyo82mvyr" "2023-11-14T22:13:20.000Z" in
  (blank "   " = true \/ truthy "Tech" = false \/ blank "text" = true)
  /\ posts (snd (handlePostSubmit examples_browser env "   " "Tech" "text" scenario))
     = [post_b; post_a]
  /\ posts (snd (handleEditSubmit examples_browser "a" "   " "Tech" "text" scenario))
     = [post_b; post_a].
Proof.
  intros env.
  assert (H : blank "   " = true \/ truthy "Tech" = false \/ blank "text" = true)
    by (left; reflexivity).
  destruct (submit_rejected examples_browser env "a" "   " "Tech" "text" scenario H)
    as [H1 [H2 [H3 _]]].
  split; [exact H|]. split.
  - rewrite H1. exact H3.
  - rewrite H2. exact H3.
Defined.

(** C6, counterexample.  A category of one space is empty after trimming, yet
    [handlePostSubmit] accepts the form: a post is added to the empty
    collection and the stored text changes. *)
Lemma whitespace_category_is_accepted :
  let env := mkEnv 1700000000000 "0.4fzyo82mvyr" "2023-11-14T22:13:20.000Z" in
  let st' := snd (handlePostSubmit examples_browser env "Title" " " "Text" (initial ∅)) in
  blank " " = true
  /\ posts st' <> posts (initial ∅)
  /\ localStorage st' !! "blogPosts" <> localStorage (initial ∅) !! "blogPosts".
Proof. split; [reflexivity|]. split; discriminate. Qed.

(** ** Editing *)

Lemma findIndex_absent (postId : string) (ps : list Post) :
  (forall p, p ∈ ps -> id p <> postId) ->
  findIndex (fun p => String.eqb (id p) postId) ps = None.
Proof. intros H. apply findIndex_None, existsb_id_false, H. Qed.

(** C5, as the code has it.  When no post has the given id, [handleEditSubmit]
    changes neither the collection nor the stored text nor the displayed
    posts, and raises no notification of its own: with an accepted form the
    call returns and the state is exactly the one before the call; with a
    rejected form only the validation error is added. *)
Theorem handleEditSubmit_absent_id (b : Browser) (postId t c x : string) (st : State) :
  (forall p, p ∈ posts st -> id p <> postId) ->
  handleEditSubmit b postId t c x st
  = (Return tt,
     if accepted t c x then st
     else showNotification "Please fill all fields" "error" st).
Proof.
  intros H. rewrite handleEditSubmit_unfold. destruct (accepted t c x); [|reflexivity].
  rewrite handleEditSubmit_timeout_run. now rewrite (findIndex_absent _ _ H).
Qed.

(** An edit of an unknown id on the empty collection. *)
Lemma handleEditSubmit_absent_id_witness :
  accepted "New Title" "Tech" "new content" = true
  /\ handleEditSubmit examples_browser "zzz" "New Title" "Tech" "new content" (initial ∅)
     = (Return tt, initial ∅).
Proof.
  split; [reflexivity|].
  apply (handleEditSubmit_absent_id examples_browser "zzz" "New Title" "Tech"
           "new content" (initial ∅)).
  intros p Hp. inversion Hp.
Defined.

(** C5, counterexample.  [update("zzz", ...)] on the two posts of the scenario,
    with an accepted form: the call returns and the state after it,
    notifications included, is the state before it, so nothing tells the
    caller that the id was not found. *)
Lemma handleEditSubmit_not_found_is_silent :
  accepted "New Title" "Tech" "new content" = true
  /\ (forall p, p ∈ posts scenario -> id p <> "zzz")
  /\ notifications
       (snd (handleEditSubmit examples_browser "zzz" "New Title" "Tech" "new content"
               scenario))
     = notifications scenario
  /\ handleEditSubmit examples_browser "zzz" "New Title" "Tech" "new content" scenario
     = (Return tt, scenario).
Proof.
  split; [reflexivity|]. split; [|split; reflexivity].
  intros p Hp. apply elem_of_cons in Hp as [->|Hp]; [discriminate|].
  apply elem_of_cons in Hp as [->|Hp]; [discriminate | inversion Hp].
Qed.

(** C4.  When the form is valid and some post has the given id,
    [handleEditSubmit] rewrites the first such post: its title, category and
    content become the (trimmed) form values, its id and createdAt stay; the
    collection keeps its length, every other position keeps its post, and the
    result is written to storage. *)
Theorem handleEditSubmit_frame (b : Browser) (postId t c x : string) (st : State) :
  blank t = false -> blank c = false -> blank x = false ->
  (exists p, p ∈ posts st /\ id p = postId) ->
  let st' := snd (handleEditSubmit b postId t c x st) in
  exists i old,
    posts st !! i = Some old /\ id old = postId
    /\ (forall j q, (j < i)%nat -> posts st !! j = Some q -> id q <> postId)
    /\ posts st' !! i = Some (mkPost (id old) (trim t) c (trim x) (createdAt old))
    /\ (forall j, j <> i -> posts st' !! j = posts st !! j)
    /\ List.length (posts st') = List.length (posts st)
    /\ localStorage st' !! "blogPosts" = Some (JSON_stringify (posts st')).
Proof.
  intros Ht Hc Hx [p [Hin Hid]] st'. subst st'.
  rewrite handleEditSubmit_unfold, (accepted_true _ _ _ Ht Hc Hx).
  rewrite handleEditSubmit_timeout_run.
  destruct (findIndex (fun p => String.eqb (id p) postId) (posts st)) as [i|] eqn:Ei.
  - apply findIndex_Some in Ei as [old [Hold [Hmatch Hfirst]]].
    apply String.eqb_eq in Hmatch.
    exists i, old. split; [exact Hold|]. split; [exact Hmatch|]. split.
    { intros j q Hj Hq. apply String.eqb_neq. now apply (Hfirst j q). }
    cbn zeta. set (st1 := rendered b _).
    assert (Hposts : posts st1
                     = alter (fun old => mkPost (id old) (trim t) c (trim x) (createdAt old))
                             i (posts st)) by reflexivity.
    assert (Hls : localStorage st1 !! "blogPosts" = Some (JSON_stringify (posts st1)))
      by apply lookup_insert_eq.
    assert (Hgoal :
      posts st1 !! i = Some (mkPost (id old) (trim t) c (trim x) (createdAt old))
      /\ (forall j, j <> i -> posts st1 !! j = posts st !! j)
      /\ List.length (posts st1) = List.length (posts st)
      /\ localStorage st1 !! "blogPosts" = Some (JSON_stringify (posts st1))).
    { rewrite Hposts at 1 2 3.
      split; [now rewrite list_lookup_alter_eq, Hold|].
      split; [intros j Hj; now apply list_lookup_alter_ne|].
      split; [apply length_alter | exact Hls]. }
    destruct (page_ok b (posts st1)); exact Hgoal.
  - exfalso. apply findIndex_None in Ei.
    now apply (proj1 (existsb_id_false postId (posts st)) Ei p Hin).
Qed.

(** The edit of post [a] of the scenario, with spaces around the title and
    after the content. *)
Lemma handleEditSubmit_frame_witness :
  let st' :=
    snd (handleEditSubmit examples_browser "a" " New Title" "Tech" "new content "
           scenario) in
  (exists p, p ∈ posts scenario /\ id p = "a")
  /\ exists i old,
       posts scenario !! i = Some old /\ id old = "a"
       /\ (forall j q, (j < i)%nat -> posts scenario !! j = Some q -> id q <> "a")
       /\ posts st' !! i
          = Some (mkPost (id old) (trim " New Title") "Tech" (trim "new content ")
                         (createdAt old))
       /\ (forall j, j <> i -> posts st' !! j = posts scenario !! j)
       /\ List.length (posts st') = List.length (posts scenario)
       /\ localStorage st' !! "blogPosts" = Some (JSON_stringify (posts st')).
Proof.
  intros st'.
  assert (Hex : exists p, p ∈ posts scenario /\ id p = "a").
  { exists post_a. split; [right; left | reflexivity]. }
  split; [exact Hex|].
  exact (handleEditSubmit_frame examples_browser "a" " New Title" "Tech" "new content "
           scenario eq_refl eq_refl eq_refl Hex).
Defined.

(** ** Reading back what [JSON.stringify] wrote *)

Lemma length_append (a b : string) :
  String.length (a +:+ b) = (String.length a + String.length b)%nat.
Proof. induction a as [|c a IH]; simpl; [reflexivity | now rewrite IH]. Qed.

(** One escaped character is read back as the character itself. *)
Lemma parse_chars_escape (c : ascii) (tail : string) :
  JSON.parse_chars (JSON.escape c +:+ tail)
  = JSON.cons_char c (JSON.parse_chars tail).
Proof. destruct c as [[] [] [] [] [] [] [] []]; reflexivity. Qed.

(** A quoted string is read back up to its closing quote. *)
Lemma parse_chars_escape_all (s rest : string) :
  JSON.parse_chars (JSON.escape_all s +:+ JSON.dquote +:+ rest) = Return (s, rest).
Proof.
  induction s as [|c s IH]; [reflexivity|].
  cbn [JSON.escape_all]. rewrite append_assoc, parse_chars_escape, IH. reflexivity.
Qed.

Lemma quote_append (s rest : string) :
  JSON.quote s +:+ rest
  = JSON.dquote +:+ JSON.escape_all s +:+ JSON.dquote +:+ rest.
Proof. unfold JSON.quote. now rewrite !append_assoc. Qed.

Lemma parse_value_quote (fuel : nat) (s rest : string) :
  JSON.parse_value (S fuel) (JSON.quote s +:+ rest) = Return (JStr s, rest).
Proof.
  rewrite quote_append.
  change (JSON.parse_value (S fuel) (JSON.dquote +:+ JSON.escape_all s +:+ JSON.dquote +:+ rest))
    with (JSON.bind (JSON.parse_chars (JSON.escape_all s +:+ JSON.dquote +:+ rest))
            (fun '(str, r') => Return (JStr str, r'))).
  now rewrite parse_chars_escape_all.
Qed.

Lemma parse_members_member (fuel : nat) (k v tail : string) (obj : list (string * JSValue)) :
  JSON.parse_members (S (S fuel)) (member k v +:+ tail) obj
  = match JSON.skip_ws tail with
    | String e r4 =>
        if code e =? 44 then JSON.parse_members (S fuel) r4 (JSObject.set k (JStr v) obj)
        else if code e =? 125 then Return (JObj (JSObject.set k (JStr v) obj), r4)
        else SyntaxError
    | EmptyString => SyntaxError
    end.
Proof.
  unfold member. rewrite !append_assoc, quote_append.
  change (JSON.parse_members (S (S fuel)) (JSON.dquote +:+ ?x) obj)
    with (JSON.bind (JSON.parse_chars x) (fun '(k, r1) =>
                match JSON.skip_ws r1 with
                | String d r2 =>
                    if code d =? 58 then
                      JSON.bind (JSON.parse_value (S fuel) r2) (fun '(v, r3) =>
                        let obj' := JSObject.set k v obj in
                        match JSON.skip_ws r3 with
                        | String e r4 =>
                            if code e =? 44 then JSON.parse_members (S fuel) r4 obj'
                            else if code e =? 125 then Return (JObj obj', r4)
                            else SyntaxError
                        | EmptyString => SyntaxError
                        end)
                    else SyntaxError
                | EmptyString => SyntaxError
                end)).
  rewrite parse_chars_escape_all. cbn [JSON.bind].
  change (JSON.skip_ws (":" +:+ ?x)) with (String ":" x).
  cbv beta iota. change (code ":" =? 58) with true. cbv iota.
  rewrite parse_value_quote. reflexivity.
Qed.

Lemma parse_value_post (fuel : nat) (p : Post) (rest : string) :
  JSON.parse_value (7 + fuel) (stringify_post p +:+ rest)
  = Return (post_value p, rest).
Proof.
  unfold stringify_post. rewrite !append_assoc.
  change (JSON.parse_value (7 + fuel) ("{" +:+ member "id" (id p) +:+ ?x))
    with (JSON.parse_members (S (S (S (S (S (S fuel))))))
            (member "id" (id p) +:+ x) []).
  do 4 (rewrite parse_members_member;
        change (JSON.skip_ws ("," +:+ ?x)) with ("," +:+ x);
        change ("," +:+ ?x) with (String "," x); cbv beta iota;
        change (code "," =? 44) with true; cbv iota).
  rewrite parse_members_member.
  change (JSON.skip_ws ("}" +:+ rest)) with (String "}" rest).
  reflexivity.
Qed.

Lemma parse_elements_posts (ps : list Post) :
  forall (fuel : nat) (acc : list JSValue) (rest : string),
  ps <> [] ->
  JSON.parse_elements (List.length ps + 7 + fuel)
    (stringify_elements ps +:+ "]" +:+ rest) acc
  = Return (JArr (rev acc ++ map post_value ps), rest).
Proof.
  induction ps as [|p ps IH]; intros fuel acc rest Hne; [congruence|].
  destruct ps as [|q ps].
  - cbn [stringify_elements List.length map].
    change (JSON.parse_elements (1 + 7 + fuel) ?s acc)
      with (JSON.bind (JSON.parse_value (7 + fuel) s) (fun '(v, r) =>
          match JSON.skip_ws r with
          | String d r' =>
              if code d =? 44 then JSON.parse_elements (7 + fuel) r' (v :: acc)
              else if code d =? 93 then Return (JArr (rev (v :: acc)), r')
              else SyntaxError
          | EmptyString => SyntaxError
          end)).
    rewrite parse_value_post. reflexivity.
  - change (stringify_elements (p :: q :: ps))
      with (stringify_post p +:+ "," +:+ stringify_elements (q :: ps)).
    rewrite !append_assoc.
    change (List.length (p :: q :: ps) + 7 + fuel)%nat
      with (S (List.length (q :: ps) + 7 + fuel)).
    change (JSON.parse_elements (S ?f) ?s acc)
      with (JSON.bind (JSON.parse_value f s) (fun '(v, r) =>
          match JSON.skip_ws r with
          | String d r' =>
              if code d =? 44 then JSON.parse_elements f r' (v :: acc)
              else if code d =? 93 then Return (JArr (rev (v :: acc)), r')
              else SyntaxError
          | EmptyString => SyntaxError
          end)).
    replace (List.length (q :: ps) + 7 + fuel)%nat
      with (7 + (List.length (q :: ps) + fuel))%nat at 1 by lia.
    rewrite parse_value_post. cbn [JSON.bind].
    change (JSON.skip_ws ("," +:+ ?x)) with (String "," x). cbv beta iota.
    change (code "," =? 44) with true. cbv iota.
    rewrite IH by discriminate.
    cbn [rev map]. now rewrite <- app_assoc.
Qed.

Lemma length_stringify_post (p : Post) : (59 <= String.length (stringify_post p))%nat.
Proof.
  unfold stringify_post, member, JSON.quote. rewrite !length_append. simpl. lia.
Qed.

Lemma length_stringify_elements (ps : list Post) :
  (59 * List.length ps <= String.length (stringify_elements ps) + 1)%nat.
Proof.
  induction ps as [|p ps IH]; [simpl; lia|].
  destruct ps as [|q ps].
  - pose proof (length_stringify_post p). simpl in *. lia.
  - change (stringify_elements (p :: q :: ps))
      with (stringify_post p +:+ "," +:+ stringify_elements (q :: ps)).
    rewrite !length_append. pose proof (length_stringify_post p).
    change (List.length (p :: q :: ps)) with (S (List.length (q :: ps))).
    change (String.length ",") with 1%nat. lia.
Qed.

(** [JSON.parse] reads the text [JSON.stringify] wrote for a collection back
    as the array of the same post records. *)
Lemma parse_stringify (ps : list Post) :
  JSON.parse (JSON_stringify ps) = Return (posts_value ps).
Proof.
  destruct ps as [|p ps]; [reflexivity|].
  unfold JSON.parse, JSON_stringify.
  pose proof (length_stringify_elements (p :: ps)) as Hlen.
  set (text := stringify_elements (p :: ps)) in *.
  assert (Hfuel : exists f, S (2 * String.length ("[" +:+ text +:+ "]"))
                            = (List.length (p :: ps) + 7 + f)%nat).
  { exists (S (2 * String.length ("[" +:+ text +:+ "]"))
            - (List.length (p :: ps) + 7))%nat.
    change ("[" +:+ text +:+ "]") with (String "[" (text +:+ "]")).
    cbn [String.length]. rewrite length_append.
    cbn [String.length List.length] in *. lia. }
  destruct Hfuel as [f Hf]. rewrite Hf.
  assert (Hhead : exists x, text +:+ "]" = String "{" x).
  { subst text. destruct ps; eexists; reflexivity. }
  destruct Hhead as [x Hx].
  change ("[" +:+ text +:+ "]") with (String "[" (text +:+ "]")).
  rewrite Hx.
  change (JSON.parse_value (S ?F) (String "[" (String "{" x)))
    with (JSON.parse_elements F (String "{" x) []).
  rewrite <- Hx. subst text.
  rewrite <- (append_empty_r "]").
  rewrite parse_elements_posts by discriminate. reflexivity.
Qed.

Lemma as_posts_value (ps : list Post) : as_posts (posts_value ps) = Some ps.
Proof.
  unfold as_posts, posts_value. induction ps as [|p ps IH]; [reflexivity|].
  cbn [map as_post_list]. rewrite IH. now destruct p.
Qed.

Lemma truthy_stringify (ps : list Post) : truthy (JSON_stringify ps) = true.
Proof. reflexivity. Qed.

(** Loading a text that [JSON.stringify] wrote: the collection is assigned,
    then rendered. *)
Lemma loadPosts_stored (b : Browser) (st : State) (ps : list Post) :
  localStorage st !! "blogPosts" = Some (JSON_stringify ps) ->
  loadPosts b st
  = (thrown_unless (page_ok b ps), Some (rendered b (set_posts ps st))).
Proof.
  intros H. unfold loadPosts. cbn zeta. rewrite H, truthy_stringify, parse_stringify.
  pose proof (as_posts_value ps) as Hps.
  unfold as_posts, posts_value in *. rewrite Hps. now rewrite render_run.
Qed.

Lemma synced_rendered (b : Browser) (st : State) :
  synced (rendered b (setItem_blogPosts st)).
Proof. apply lookup_insert_eq. Qed.

Lemma step_writes (b : Browser) (a : action) (st : State) :
  writes a st = true -> synced (step b a st).
Proof.
  destruct a as [env t c x | i t c x | i]; simpl; intros H.
  - rewrite handlePostSubmit_unfold, H, handlePostSubmit_timeout_run. cbn zeta.
    destruct (page_ok b _); apply synced_rendered.
  - apply andb_true_iff in H as [Ha He].
    rewrite handleEditSubmit_unfold, Ha, handleEditSubmit_timeout_run.
    destruct (findIndex _ (posts st)) eqn:E.
    + cbn zeta. destruct (page_ok b _); apply synced_rendered.
    + apply findIndex_None in E. congruence.
  - rewrite deletePost_run. cbn zeta. destruct (page_ok b _); apply synced_rendered.
Qed.

Lemma step_no_write (b : Browser) (a : action) (st : State) :
  writes a st = false ->
  posts (step b a st) = posts st /\ localStorage (step b a st) = localStorage st.
Proof.
  destruct a as [env t c x | i t c x | i]; simpl; intros H; [| |discriminate].
  - rewrite handlePostSubmit_unfold, H. split; reflexivity.
  - rewrite handleEditSubmit_unfold. destruct (accepted t c x); [|split; reflexivity].
    simpl in H. apply findIndex_None in H.
    rewrite handleEditSubmit_timeout_run, H. split; reflexivity.
Qed.

Lemma step_synced (b : Browser) (a : action) (st : State) :
  synced st -> synced (step b a st).
Proof.
  intros Hs. destruct (writes a st) eqn:W; [now apply step_writes|].
  destruct (step_no_write b a st W) as [Hp Hl]. unfold synced. now rewrite Hp, Hl.
Qed.

Lemma run_synced (b : Browser) (acts : list action) (st : State) :
  synced st -> synced (run b acts st).
Proof.
  revert st. induction acts as [|a acts IH]; intros st Hs; [exact Hs|].
  apply (IH (step b a st)), step_synced, Hs.
Qed.

Lemma any_write_synced (b : Browser) (acts : list action) (st : State) :
  any_write b acts st = true -> synced (run b acts st).
Proof.
  revert st. induction acts as [|a acts IH]; intros st H; [discriminate|].
  simpl in H. apply orb_true_iff in H as [H|H].
  - change (synced (run b acts (step b a st))). apply run_synced, step_writes, H.
  - apply (IH (step b a st) H).
Qed.

(** C3.  After any sequence of create, update and delete actions of which at
    least one reached [savePosts], loading the stored text on a fresh page
    assigns to [posts] the collection in memory: the same posts, in the same
    order, with the same five fields.  This holds whether the rendering that
    ends [loadPosts] returns or throws; it returns, with the whole collection
    displayed, exactly when every card and link has the element looked up in
    it. *)
Theorem load_after_actions (b : Browser) (acts : list action) (st : State) :
  any_write b acts st = true ->
  let now := run b acts st in
  exists st',
    loadPosts b (initial (localStorage now))
    = (thrown_unless (page_ok b (posts now)), Some st')
    /\ posts st' = posts now
    /\ shown (postsContainer st') = prefix_while (card b) (posts now)
    /\ (page_ok b (posts now) = true -> shown (postsContainer st') = posts now).
Proof.
  intros H now. apply any_write_synced in H. fold now in H.
  exists (rendered b (set_posts (posts now) (initial (localStorage now)))).
  split; [now apply loadPosts_stored|]. split; [reflexivity|].
  assert (Hs : shown (postsContainer
                        (rendered b (set_posts (posts now) (initial (localStorage now)))))
               = prefix_while (card b) (posts now)) by apply shown_displayed.
  split; [exact Hs|].
  intros Hok. rewrite Hs. apply forallb_prefix_while, page_ok_cards, Hok.
Qed.

(** A create, an edit of the post just created, a delete and an edit that find
    nothing. *)
Lemma load_after_actions_witness :
  let env := mkEnv 1700000000000 "0.4fzyo82mvyr" "2023-11-14T22:13:20.000Z" in
  let acts := [Create env "Hello World" "Tech" "foo";
               Update "loyw3v284fzyo" " Hello " "Tech" "bar";
               Delete "zzz";
               Update "zzz" "x" "y" "z"] in
  let now := run examples_browser acts (initial ∅) in
  any_write examples_browser acts (initial ∅) = true
  /\ exists st',
       loadPosts examples_browser (initial (localStorage now))
       = (thrown_unless (page_ok examples_browser (posts now)), Some st')
       /\ posts st' = posts now
       /\ shown (postsContainer st') = prefix_while (card examples_browser) (posts now)
       /\ (page_ok examples_browser (posts now) = true ->
           shown (postsContainer st') = posts now).
Proof.
  intros env acts now. split; [reflexivity|].
  exact (load_after_actions examples_browser acts (initial ∅) eq_refl).
Defined.

(** The same round trip when the title of the post opens a comment: the
    callback of [handlePostSubmit] throws after the post is stored, raising no
    notification, and [loadPosts] on a fresh page throws after the post is
    assigned, with nothing displayed. *)
Lemma load_after_comment_title :
  let env := mkEnv 1700000000000 "0.4fzyo82mvyr" "2023-11-14T22:13:20.000Z" in
  let newPost := mkPost "loyw3v284fzyo" "<!--" "Tech" "baz" "2023-11-14T22:13:20.000Z" in
  let r := handlePostSubmit examples_browser env "<!--" "Tech" "baz" (initial ∅) in
  fst r = TypeError
  /\ posts (snd r) = [newPost]
  /\ notifications (snd r) = []
  /\ loadPosts examples_browser (initial (localStorage (snd r)))
     = (TypeError,
        Some (set_postsContainer (Cards [])
                (set_posts [newPost] (initial (localStorage (snd r)))))).
Proof.
  intros env newPost r.
  split; [reflexivity|]. split; [reflexivity|]. split; [reflexivity|].
  rewrite (loadPosts_stored _ _ [newPost]); [reflexivity|].
  subst r. rewrite handlePostSubmit_unfold. cbn [accepted]. apply lookup_insert_eq.
Qed.

(** ** Loading *)

(** C1, as the code has it.  [loadPosts] returns with the empty collection
    when the key is missing or holds the empty string.  Nothing is caught:
    when the key holds a text that [JSON.parse] rejects, loading throws its
    SyntaxError and the page is left as it was; when it holds the JSON text of
    a value that is not an array, loading throws a TypeError.  When the key
    holds what [savePosts] wrote, the saved collection is assigned to [posts],
    and loading returns exactly when every card and link of that collection
    has the element looked up in it; otherwise it throws a TypeError after the
    assignment, with the cards before the first one that lacks a button in
    the container. *)
Theorem loadPosts_by_entry (b : Browser) (st : State) (entry : option string) :
  localStorage st !! "blogPosts" = entry ->
  (entry = None \/ entry = Some EmptyString ->
   exists st', loadPosts b st = (Return tt, Some st') /\ posts st' = [])
  /\ (forall text, entry = Some text -> truthy text = true ->
      JSON.parse text = SyntaxError -> loadPosts b st = (SyntaxError, Some st))
  /\ (forall text v, entry = Some text -> truthy text = true ->
      JSON.parse text = Return v -> is_array v = false ->
      loadPosts b st = (TypeError, None))
  /\ (forall ps, entry = Some (JSON_stringify ps) ->
      exists st',
        snd (loadPosts b st) = Some st'
        /\ posts st' = ps
        /\ shown (postsContainer st') = prefix_while (card b) ps
        /\ (page_ok b ps = true ->
            fst (loadPosts b st) = Return tt /\ shown (postsContainer st') = ps)
        /\ (page_ok b ps = false -> fst (loadPosts b st) = TypeError)).
Proof.
  intros H. split; [|split; [|split]].
  - intros [-> | ->]; unfold loadPosts; cbn zeta; rewrite H; cbn [truthy as_post_list];
      rewrite render_run; eexists; split; reflexivity.
  - intros text -> Ht Hp. unfold loadPosts. cbn zeta. now rewrite H, Ht, Hp.
  - intros text v -> Ht Hp Hv. unfold loadPosts. cbn zeta. rewrite H, Ht, Hp.
    now destruct v.
  - intros ps ->. exists (rendered b (set_posts ps st)).
    rewrite (loadPosts_stored b st ps H). cbn [fst snd].
    split; [reflexivity|]. split; [reflexivity|].
    split; [apply shown_displayed|]. split.
    + intros Hok. rewrite Hok. split; [reflexivity|].
      apply shown_displayed_ok, page_ok_cards, Hok.
    + intros Hok. now rewrite Hok.
Qed.

(** An entry that opens an object and never closes it. *)
Lemma loadPosts_by_entry_witness :
  let st := initial {["blogPosts" := "{oops"]} in
  localStorage st !! "blogPosts" = Some "{oops"
  /\ loadPosts examples_browser st = (SyntaxError, Some st).
Proof.
  intros st. split; [reflexivity|].
  exact (proj1 (proj2 (loadPosts_by_entry examples_browser st (Some "{oops") eq_refl))
           "{oops" eq_refl eq_refl eq_refl).
Defined.

(** C1, counterexample.  The key holds a text that is not JSON: [loadPosts]
    does not return the empty collection, it throws the SyntaxError of
    [JSON.parse]. *)
Lemma loadPosts_raises_on_malformed_entry :
  let st := initial {["blogPosts" := "not json"]} in
  localStorage st !! "blogPosts" = Some "not json"
  /\ JSON.parse "not json" = SyntaxError
  /\ loadPosts examples_browser st = (SyntaxError, Some st)
  /\ forall st', loadPosts examples_browser st <> (Return tt, st').
Proof.
  intros st. split; [reflexivity|]. split; [reflexivity|]. split; [reflexivity|].
  intros st'. discriminate.
Qed.

(** The same for an entry that is JSON but no array: an object, [null]. *)
Lemma loadPosts_raises_on_other_shapes :
  JSON.parse "{}" = Return (JObj [])
  /\ loadPosts examples_browser (initial {["blogPosts" := "{}"]}) = (TypeError, None)
  /\ JSON.parse "null" = Return JNull
  /\ loadPosts examples_browser (initial {["blogPosts" := "null"]}) = (TypeError, None).
Proof. repeat split. Qed.

(** ** The category side bar *)

Section ObjectLemmas.
Context {V : Type}.
Implicit Types (o : list (string * V)) (k : string) (v : V).

Lemma get_None o k : JSObject.get k o = None <-> k ∉ o.*1.
Proof.
  induction o as [|[k' v'] o IH]; simpl.
  - split; [intros _ H; inversion H | reflexivity].
  - destruct (String.eqb k' k) eqn:E.
    + apply String.eqb_eq in E as ->. split; [discriminate|]. intros H. exfalso. apply H. left.
    + apply String.eqb_neq in E. rewrite IH, not_elem_of_cons. simpl. intuition congruence.
Qed.

Lemma get_Some_elem o k v : JSObject.get k o = Some v -> (k, v) ∈ o.
Proof.
  induction o as [|[k' v'] o IH]; simpl; [discriminate|].
  destruct (String.eqb k' k) eqn:E.
  - apply String.eqb_eq in E as ->. intros [= ->]. left.
  - intros H. right. now apply IH.
Qed.

Lemma get_elem_NoDup o k v : NoDup o.*1 -> (k, v) ∈ o -> JSObject.get k o = Some v.
Proof.
  induction o as [|[k' v'] o IH]; simpl; intros Hnd Hin; [inversion Hin|].
  apply NoDup_cons in Hnd as [Hk' Hnd].
  apply elem_of_cons in Hin as [[= -> ->]|Hin].
  - now rewrite String.eqb_refl.
  - destruct (String.eqb k' k) eqn:E; [|now apply IH].
    apply String.eqb_eq in E as ->. exfalso. apply Hk'.
    apply list_elem_of_fmap. now exists (k, v).
Qed.

Lemma keys_overwrite o k v : (JSObject.overwrite k v o).*1 = o.*1.
Proof.
  induction o as [|[k' v'] o IH]; [reflexivity|].
  cbn [JSObject.overwrite]. destruct (String.eqb k' k); csimpl; [reflexivity | now rewrite IH].
Qed.

Lemma get_overwrite o k v k' :
  JSObject.get k' (JSObject.overwrite k v o)
  = if String.eqb k k' then (match JSObject.get k o with Some _ => Some v | None => None end)
    else JSObject.get k' o.
Proof.
  induction o as [|[k0 v0] o IH]; simpl; [now destruct (String.eqb k k')|].
  destruct (String.eqb k0 k) eqn:E0; simpl.
  - apply String.eqb_eq in E0 as ->. destruct (String.eqb k k'); reflexivity.
  - destruct (String.eqb k0 k') eqn:E1.
    + apply String.eqb_eq in E1 as ->. rewrite String.eqb_sym, E0. reflexivity.
    + exact IH.
Qed.

Lemma get_snoc o k v k' :
  JSObject.get k' (o ++ [(k, v)])
  = match JSObject.get k' o with
    | Some x => Some x
    | None => if String.eqb k k' then Some v else None
    end.
Proof.
  induction o as [|[k0 v0] o IH]; simpl; [reflexivity|].
  destruct (String.eqb k0 k'); [reflexivity | exact IH].
Qed.
End ObjectLemmas.

Lemma plain_facts (c : string) :
  plain c = true ->
  JSObject.array_index c = None /\ inherited c = false
  /\ String.eqb c "__proto__" = false.
Proof.
  unfold plain. destruct (JSObject.array_index c); [discriminate|].
  intros H. apply andb_true_iff in H as [H1 H2].
  apply negb_true_iff in H1, H2. auto.
Qed.

Lemma all_num_overwrite (o : list (string * count)) (k : string) (n : N) :
  all_num o -> all_num (JSObject.overwrite k (Num n) o).
Proof.
  unfold all_num. induction 1 as [|[k' v'] o Hx Ho IH]; simpl; [constructor|].
  destruct (String.eqb k' k); constructor; simpl; eauto.
Qed.

Lemma all_num_get (o : list (string * count)) (k : string) (v : count) :
  all_num o -> JSObject.get k o = Some v -> exists n, v = Num n.
Proof.
  intros Ho Hg. apply get_Some_elem in Hg.
  unfold all_num in Ho. rewrite Forall_forall in Ho. exact (Ho _ Hg).
Qed.

(** On a plain category the counting step either bumps the counter in place
    or appends a fresh counter. *)
Lemma count_post_plain (acc : list (string * count)) (p : Post) :
  plain (category p) = true -> all_num acc ->
  count_post acc p
  = match JSObject.get (category p) acc with
    | Some (Num n) => JSObject.overwrite (category p) (Num (n + 1)) acc
    | _ => acc ++ [(category p, Num 1)]
    end.
Proof.
  intros Hp Ha. destruct (plain_facts _ Hp) as [Hi [Hh Hq]].
  unfold count_post. destruct (JSObject.get (category p) acc) as [v|] eqn:G.
  - destruct (all_num_get _ _ _ Ha G) as [n ->].
    unfold JSObject.set. now rewrite G.
  - rewrite Hq, Hh. unfold JSObject.set. now rewrite G, Hi.
Qed.

Lemma all_num_count_post (acc : list (string * count)) (p : Post) :
  plain (category p) = true -> all_num acc -> all_num (count_post acc p).
Proof.
  intros Hp Ha. rewrite count_post_plain by assumption.
  destruct (JSObject.get (category p) acc) as [[n|f k]|].
  - now apply all_num_overwrite.
  - apply Forall_app. split; [exact Ha|]. repeat constructor. now exists 1.
  - apply Forall_app. split; [exact Ha|]. repeat constructor. now exists 1.
Qed.

Lemma keys_count_post (acc : list (string * count)) (p : Post) :
  plain (category p) = true -> all_num acc ->
  (count_post acc p).*1
  = if decide (category p ∈ acc.*1) then acc.*1 else acc.*1 ++ [category p].
Proof.
  intros Hp Ha. rewrite count_post_plain by assumption.
  destruct (JSObject.get (category p) acc) as [v|] eqn:G.
  - destruct (all_num_get _ _ _ Ha G) as [n ->].
    rewrite keys_overwrite, decide_True; [reflexivity|].
    apply get_Some_elem in G. apply list_elem_of_fmap. now exists (category p, Num n).
  - rewrite fmap_app, decide_False; [reflexivity|]. now apply get_None.
Qed.

Lemma first_encounter_keys (ps : list Post) :
  forall acc : list (string * count),
  (forall p, p ∈ ps -> plain (category p) = true) -> all_num acc ->
  (fold_left count_post ps acc).*1
  = acc.*1 ++ filter (fun c => c ∉ acc.*1) (first_encounter (map category ps)).
Proof.
  induction ps as [|p ps IH]; intros acc Hp Ha.
  - simpl. now rewrite filter_nil, app_nil_r.
  - assert (Hpp : plain (category p) = true) by (apply Hp; left).
    cbn [fold_left map first_encounter].
    rewrite IH; [|intros q Hq; apply Hp; now right | now apply all_num_count_post].
    rewrite keys_count_post by assumption.
    rewrite filter_cons. destruct (decide (category p ∈ acc.*1)) as [Hin|Hin].
    + rewrite decide_False by tauto. f_equal.
      rewrite list_filter_filter. apply list_filter_iff.
      intros c. split; [intros Hc; split; [exact Hc | intros ->; tauto] | tauto].
    + rewrite decide_True by assumption. rewrite <- app_assoc. f_equal. simpl. f_equal.
      rewrite list_filter_filter. apply list_filter_iff.
      intros c. rewrite not_elem_of_app, list_elem_of_singleton. tauto.
Qed.

Lemma tally_cons (c : string) (p : Post) (ps : list Post) :
  tally c (p :: ps) = (if String.eqb (category p) c then 1 else 0) + tally c ps.
Proof.
  unfold tally. simpl. destruct (String.eqb (category p) c); simpl List.length; lia.
Qed.

Lemma first_encounter_counts (ps : list Post) :
  forall (acc : list (string * count)) (c : string),
  (forall p, p ∈ ps -> plain (category p) = true) -> all_num acc ->
  JSObject.get c (fold_left count_post ps acc)
  = match JSObject.get c acc with
    | Some (Num n) => Some (Num (n + tally c ps))
    | Some t => Some t
    | None => if tally c ps =? 0 then None else Some (Num (tally c ps))
    end.
Proof.
  induction ps as [|p ps IH]; intros acc c Hp Ha.
  - simpl. destruct (JSObject.get c acc) as [[n|f k]|]; try reflexivity.
    unfold tally. simpl. now rewrite N.add_0_r.
  - assert (Hpp : plain (category p) = true) by (apply Hp; left).
    cbn [fold_left].
    rewrite IH; [|intros q Hq; apply Hp; now right | now apply all_num_count_post].
    rewrite tally_cons, count_post_plain by assumption.
    destruct (JSObject.get (category p) acc) as [v|] eqn:G.
    + destruct (all_num_get _ _ _ Ha G) as [n ->].
      rewrite get_overwrite, G. destruct (String.eqb (category p) c) eqn:E.
      * apply String.eqb_eq in E as <-. rewrite G. do 2 f_equal. lia.
      * now destruct (JSObject.get c acc) as [[m|f k]|].
    + rewrite get_snoc. destruct (String.eqb (category p) c) eqn:E.
      * apply String.eqb_eq in E as <-. rewrite G.
        destruct (1 + tally (category p) ps =? 0) eqn:Z; [apply N.eqb_eq in Z; lia|].
        reflexivity.
      * now destruct (JSObject.get c acc) as [[m|f k]|].
Qed.

Lemma elem_of_first_encounter (cs : list string) (c : string) :
  c ∈ first_encounter cs <-> c ∈ cs.
Proof.
  induction cs as [|d cs IH]; [reflexivity|].
  cbn [first_encounter]. rewrite !elem_of_cons, list_elem_of_filter, IH.
  destruct (decide (c = d)); tauto.
Qed.

Lemma NoDup_first_encounter (cs : list string) : NoDup (first_encounter cs).
Proof.
  induction cs as [|d cs IH]; [constructor|].
  cbn [first_encounter]. apply NoDup_cons. split.
  - rewrite list_elem_of_filter. tauto.
  - now apply NoDup_filter.
Qed.

Lemma object_by_keys (o : list (string * count)) (f : string -> count) :
  (forall k v, (k, v) ∈ o -> v = f k) -> o = map (fun k => (k, f k)) o.*1.
Proof.
  induction o as [|[k v] o IH]; intros H; [reflexivity|].
  csimpl. rewrite (H k v) by left. f_equal. apply IH.
  intros k' v' Hin. apply H. now right.
Qed.

Lemma filter_not_in_nil (l : list string) :
  filter (fun c => c ∉ ([] : list string)) l = l.
Proof.
  induction l as [|c l IH]; [reflexivity|].
  rewrite filter_cons, decide_True, IH; [reflexivity|]. intros H. inversion H.
Qed.

Lemma categories_object (ps : list Post) :
  (forall p, p ∈ ps -> plain (category p) = true) ->
  fold_left count_post ps []
  = map (fun c => (c, Num (tally c ps))) (first_encounter (map category ps)).
Proof.
  intros Hp. assert (Ha : all_num []) by constructor.
  pose proof (first_encounter_keys ps [] Hp Ha) as Hk.
  simpl in Hk. rewrite filter_not_in_nil in Hk.
  rewrite <- Hk. apply object_by_keys. intros k v Hin.
  assert (Hnd : NoDup (fold_left count_post ps []).*1)
    by (rewrite Hk; apply NoDup_first_encounter).
  pose proof (get_elem_NoDup _ _ _ Hnd Hin) as Hg.
  rewrite (first_encounter_counts ps [] k Hp Ha) in Hg. simpl in Hg.
  destruct (tally k ps =? 0); congruence.
Qed.

Lemma filter_lookup_order {A : Type} (P : A -> Prop) `{!forall x, Decision (P x)}
    (l : list A) :
  forall (i j : nat) (x y : A),
  filter P l !! i = Some x -> filter P l !! j = Some y -> (i < j)%nat ->
  exists i' j', l !! i' = Some x /\ l !! j' = Some y /\ (i' < j')%nat.
Proof.
  induction l as [|a l IH]; intros i j x y Hi Hj Hlt; [discriminate|].
  rewrite filter_cons in Hi, Hj. destruct (decide (P a)).
  - destruct i as [|i]; destruct j as [|j]; try lia; simpl in Hi, Hj.
    + injection Hi as ->.
      assert (Hy : y ∈ filter P l) by (apply list_elem_of_lookup; eauto).
      apply list_elem_of_filter in Hy as [_ Hy].
      apply list_elem_of_lookup in Hy as [j' Hj'].
      exists O, (S j'). repeat split; [exact Hj' | lia].
    + destruct (IH i j x y Hi Hj ltac:(lia)) as [i' [j' [Hx [Hy Hlt']]]].
      exists (S i'), (S j'). repeat split; [exact Hx | exact Hy | lia].
  - destruct (IH i j x y Hi Hj Hlt) as [i' [j' [Hx [Hy Hlt']]]].
    exists (S i'), (S j'). repeat split; [exact Hx | exact Hy | lia].
Qed.

Lemma first_seen_cons (c d : string) (cs : list string) :
  first_seen c (d :: cs) = if String.eqb c d then Some O else S <$> first_seen c cs.
Proof. reflexivity. Qed.

Lemma first_seen_elem (c : string) (cs : list string) :
  c ∈ cs -> exists a, first_seen c cs = Some a.
Proof.
  induction cs as [|d cs IH]; intros H; [inversion H|].
  rewrite first_seen_cons. destruct (String.eqb c d) eqn:E; [eauto|].
  apply String.eqb_neq in E. apply elem_of_cons in H as [H|H]; [congruence|].
  destruct (IH H) as [a ->]. simpl. eauto.
Qed.

(** In [first_encounter cs] a category stands before another exactly as their
    first occurrences stand in [cs]. *)
Lemma first_encounter_order (cs : list string) :
  forall (i j : nat) (c d : string),
  first_encounter cs !! i = Some c -> first_encounter cs !! j = Some d ->
  (i < j)%nat ->
  exists a b, first_seen c cs = Some a /\ first_seen d cs = Some b /\ (a < b)%nat.
Proof.
  induction cs as [|x cs IH]; intros i j c d Hi Hj Hlt; [discriminate|].
  cbn [first_encounter] in Hi, Hj. rewrite !first_seen_cons.
  destruct j as [|j]; [lia|]. simpl in Hj.
  assert (Hd : d ∈ filter (fun e => e <> x) (first_encounter cs))
    by (apply list_elem_of_lookup; eauto).
  apply list_elem_of_filter in Hd as [Hdx Hd].
  rewrite elem_of_first_encounter in Hd.
  rewrite (proj2 (String.eqb_neq d x) Hdx).
  destruct i as [|i]; simpl in Hi.
  - injection Hi as ->. rewrite String.eqb_refl.
    destruct (first_seen_elem d cs Hd) as [b ->]. exists O, (S b).
    repeat split. lia.
  - assert (Hc : c ∈ filter (fun e => e <> x) (first_encounter cs))
      by (apply list_elem_of_lookup; eauto).
    apply list_elem_of_filter in Hc as [Hcx _].
    rewrite (proj2 (String.eqb_neq c x) Hcx).
    destruct (filter_lookup_order _ _ i j c d Hi Hj ltac:(lia)) as [i' [j' [Hc' [Hd' Hlt']]]].
    destruct (IH i' j' c d Hc' Hd' Hlt') as [a [b [-> [-> Hab]]]].
    exists (S a), (S b). repeat split. lia.
Qed.

(** On plain categories the [categories] object lists the distinct
    categories in order of first encounter, each with its number of posts. *)
Lemma categories_of_plain (ps : list Post) :
  (forall p, p ∈ ps -> plain (category p) = true) ->
  categories_of ps
  = map (fun c => (c, Num (tally c ps))) (first_encounter (map category ps)).
Proof. apply categories_object. Qed.

(** C9, as the code has it.  When no category is an array index or a name
    found on [Object.prototype], [updateCategoriesList] goes through the
    distinct categories in the order in which they are first encountered in
    [posts] (not alphabetical), each with the number of posts of that
    category.  When the link of every category is found it renders one link
    per category in that order, puts an [all] link with the total in front
    exactly when the collection is not empty, and returns.  Otherwise it
    throws a TypeError on the first category whose link is not found: the list
    then holds the links before it and no [all] link.  On the scenario,
    newest first [b:Food, a:Tech], the links are all:2, Food:1, Tech:1, in
    that order. *)
Theorem updateCategoriesList_counts (b : Browser) (st : State) :
  (forall p, p ∈ posts st -> plain (category p) = true) ->
  let cs := map category (posts st) in
  let entries := map (fun c => (c, Num (tally c (posts st)))) (first_encounter cs) in
  let link := fun kv : string * count => mkLink kv.1 kv.1 kv.2 in
  let r := updateCategoriesList b st in
  fst r = thrown_unless (forallb (entry_link b) entries)
  /\ categoriesList (snd r)
     = (if forallb (entry_link b) entries
        then match posts st with
             | [] => []
             | _ :: _ =>
                 mkLink "all" "All" (Num (N.of_nat (List.length (posts st))))
                 :: map link entries
             end
        else map link (prefix_while (entry_link b) entries))
  /\ NoDup (first_encounter cs)
  /\ (forall c, c ∈ first_encounter cs <-> exists p, p ∈ posts st /\ category p = c)
  /\ (forall i j c d,
        first_encounter cs !! i = Some c -> first_encounter cs !! j = Some d ->
        (i < j)%nat ->
        exists a b, first_seen c cs = Some a /\ first_seen d cs = Some b /\ (a < b)%nat)
  /\ updateCategoriesList examples_browser scenario
     = (Return tt,
        set_categoriesList
          [mkLink "all" "All" (Num 2); mkLink "Food" "Food" (Num 1);
           mkLink "Tech" "Tech" (Num 1)] scenario).
Proof.
  intros Hp cs entries link r.
  assert (He : categories_of (posts st) = entries) by now apply categories_of_plain.
  split; [|split; [|split; [|split; [|split]]]].
  - subst r. rewrite updateCategoriesList_run. cbn [fst]. unfold links_ok. now rewrite He.
  - subst r. rewrite updateCategoriesList_run. cbn [snd categoriesList set_categoriesList].
    unfold category_links, links_ok. rewrite He.
    destruct (forallb (entry_link b) entries) eqn:Hok; [|reflexivity].
    rewrite (forallb_prefix_while _ _ Hok).
    destruct (posts st) as [|p ps] eqn:E; [reflexivity|].
    subst entries cs. reflexivity.
  - apply NoDup_first_encounter.
  - intros c. rewrite elem_of_first_encounter. subst cs.
    rewrite list_elem_of_In, in_map_iff. setoid_rewrite list_elem_of_In.
    split; intros [p [H1 H2]]; exists p; tauto.
  - apply first_encounter_order.
  - reflexivity.
Qed.

(** The side bar of the scenario. *)
Lemma updateCategoriesList_counts_witness :
  (forall p, p ∈ posts scenario -> plain (category p) = true)
  /\ categoriesList (snd (updateCategoriesList examples_browser scenario))
     = [mkLink "all" "All" (Num (N.of_nat (List.length (posts scenario))));
        mkLink "Food" "Food" (Num (tally "Food" (posts scenario)));
        mkLink "Tech" "Tech" (Num (tally "Tech" (posts scenario)))].
Proof.
  assert (H : forall p, p ∈ posts scenario -> plain (category p) = true).
  { intros p Hp. apply elem_of_cons in Hp as [->|Hp]; [reflexivity|].
    apply elem_of_cons in Hp as [->|Hp]; [reflexivity | inversion Hp]. }
  split; [exact H|].
  exact (proj1 (proj2 (updateCategoriesList_counts examples_browser scenario H))).
Defined.

(** C9, counterexample.  On the scenario, whose collection is newest first
    [b; a], the links come in the order all, Food, Tech and not all, Tech,
    Food. *)
Lemma updateCategoriesList_scenario_order :
  posts scenario = [post_b; post_a]
  /\ fst (updateCategoriesList examples_browser scenario) = Return tt
  /\ map data_category
       (categoriesList (snd (updateCategoriesList examples_browser scenario)))
     = ["all"; "Food"; "Tech"]
  /\ map data_category
       (categoriesList (snd (updateCategoriesList examples_browser scenario)))
     <> ["all"; "Tech"; "Food"].
Proof. split; [reflexivity|]. split; [reflexivity|]. split; [reflexivity | discriminate]. Qed.

(** Why the categories have to be plain: an array index is listed before the
    categories met earlier, and a collection whose only category is
    [__proto__] gets no link at all, not even the [all] link. *)
Lemma updateCategoriesList_array_index :
  map data_category
    (categoriesList
       (snd (updateCategoriesList examples_browser
               (set_posts [mkPost "1" "t" "b" "x" "d"; mkPost "2" "t" "10" "x" "d"]
                  (initial ∅)))))
  = ["all"; "10"; "b"].
Proof. reflexivity. Qed.

Lemma updateCategoriesList_proto :
  categoriesList
    (snd (updateCategoriesList examples_browser
            (set_posts [mkPost "1" "t" "__proto__" "x" "d"] (initial ∅))))
  = [].
Proof. reflexivity. Qed.

(** ** Creating *)

Lemma value36_digit36 (d : N) : d < 36 -> value36_digit (digit36 d) = d.
Proof.
  intros H. unfold value36_digit, digit36, code.
  destruct (d <? 10) eqn:E.
  - apply N.ltb_lt in E. rewrite N_ascii_embedding by lia.
    destruct (48 + d <? 58) eqn:F; [lia|]. apply N.ltb_ge in F. lia.
  - apply N.ltb_ge in E. rewrite N_ascii_embedding by lia.
    destruct (87 + d <? 58) eqn:F; [apply N.ltb_lt in F; lia | lia].
Qed.

Lemma value36_aux_append (a b : string) (v : N) :
  value36_aux (a +:+ b) v = value36_aux b (value36_aux a v).
Proof. revert v. induction a as [|c a IH]; intros v; simpl; [reflexivity | apply IH]. Qed.

Lemma toString36_aux_S (fuel : nat) (n : N) (acc : string) :
  toString36_aux (S fuel) n acc
  = if n / 36 =? 0 then String (digit36 (n mod 36)) acc
    else toString36_aux fuel (n / 36) (String (digit36 (n mod 36)) acc).
Proof. reflexivity. Qed.

(** With fuel for the binary digits of [n], [toString36_aux] puts all the
    base-36 digits of [n] in front of the accumulator. *)
Lemma toString36_aux_digits (f : nat) :
  forall (n : N) (acc : string),
  n < 2 ^ N.of_nat f ->
  exists ds, toString36_aux (S f) n acc = ds +:+ acc
             /\ forall v, value36_aux ds v = v * 36 ^ N.of_nat (String.length ds) + n.
Proof.
  induction f as [|f IH]; intros n acc Hn.
  - simpl in Hn. assert (n = 0) as -> by lia.
    exists (String (digit36 0) EmptyString). split; [reflexivity|].
    intros v. simpl. rewrite value36_digit36 by lia. lia.
  - rewrite toString36_aux_S.
    pose proof (N.div_mod n 36 ltac:(lia)) as Hdm.
    pose proof (N.mod_lt n 36 ltac:(lia)) as Hm.
    destruct (n / 36 =? 0) eqn:E.
    + apply N.eqb_eq in E. exists (String (digit36 (n mod 36)) EmptyString).
      split; [reflexivity|]. intros v. simpl. rewrite value36_digit36 by lia. lia.
    + apply N.eqb_neq in E.
      assert (Hq : n / 36 < 2 ^ N.of_nat f).
      { rewrite Nat2N.inj_succ, N.pow_succ_r' in Hn.
        apply N.Div0.div_lt_upper_bound; lia. }
      destruct (IH (n / 36) (String (digit36 (n mod 36)) acc) Hq) as [ds [Hds Hv]].
      exists (ds +:+ String (digit36 (n mod 36)) EmptyString). split.
      * rewrite Hds. now rewrite append_assoc.
      * intros v. rewrite value36_aux_append, Hv. simpl.
        rewrite value36_digit36 by lia. rewrite length_append, Nat.add_1_r.
        rewrite Nat2N.inj_succ, N.pow_succ_r'. lia.
Qed.

(** [toString36] prints its argument: the numeral it returns has value [n]. *)
Lemma value36_toString36 (n : N) : value36 (toString36 n) = n.
Proof.
  unfold value36, toString36.
  destruct (toString36_aux_digits (N.to_nat (N.size n)) n EmptyString) as [ds [Hds Hv]].
  - rewrite N2Nat.id. apply N.size_gt.
  - rewrite Hds, append_empty_r, Hv. lia.
Qed.

Lemma posts_handlePostSubmit (b : Browser) (env : Env) (t c x : string) (st : State) :
  posts (snd (handlePostSubmit b env t c x st))
  = if accepted t c x
    then mkPost (generateUniqueId env) (trim t) c (trim x) (Date_toISOString env)
         :: posts st
    else posts st.
Proof.
  rewrite handlePostSubmit_unfold. destruct (accepted t c x); [|reflexivity].
  rewrite handlePostSubmit_timeout_run. cbn zeta. now destruct (page_ok b _).
Qed.

(** X1.  What a valid submission does: the new post carries the trimmed title,
    the category and the trimmed content of the form, the clock reading and
    the generated id; it stands in front of the posts there were, and the
    whole collection is written to storage.  The page is then rendered: the
    container holds the cards up to the first that lacks a button; when every
    card and link has the element looked up in it the whole collection is
    displayed, the call returns and the success notification is raised;
    otherwise the callback throws a TypeError and raises no notification. *)
Lemma handlePostSubmit_creates
    (b : Browser) (env : Env) (t c x : string) (st : State) :
  accepted t c x = true ->
  let r := handlePostSubmit b env t c x st in
  let st' := snd r in
  posts st'
  = mkPost (generateUniqueId env) (trim t) c (trim x) (Date_toISOString env)
    :: posts st
  /\ localStorage st' !! "blogPosts" = Some (JSON_stringify (posts st'))
  /\ shown (postsContainer st') = prefix_while (card b) (posts st')
  /\ (page_ok b (posts st') = true ->
      fst r = Return tt
      /\ shown (postsContainer st') = posts st'
      /\ notifications st'
         = notifications st ++ [("Post published successfully!", "success")])
  /\ (page_ok b (posts st') = false ->
      fst r = TypeError /\ notifications st' = notifications st).
Proof.
  intros H r st'. subst st' r. rewrite handlePostSubmit_unfold, H.
  rewrite handlePostSubmit_timeout_run. cbn zeta.
  set (newPost := mkPost _ _ _ _ _). set (st1 := rendered b _).
  assert (Hp : posts st1 = newPost :: posts st) by reflexivity.
  assert (Hl : localStorage st1 !! "blogPosts" = Some (JSON_stringify (posts st1)))
    by apply lookup_insert_eq.
  assert (Hs : shown (postsContainer st1) = prefix_while (card b) (posts st1))
    by apply shown_displayed.
  rewrite <- Hp.
  destruct (page_ok b (posts st1)) eqn:Hok;
    cbn [fst snd posts localStorage postsContainer notifications showNotification];
    rewrite ?Hok.
  - repeat split; try assumption; try discriminate.
    rewrite Hs. apply forallb_prefix_while, page_ok_cards, Hok.
  - repeat split; try assumption; discriminate.
Qed.

(** A submission with surrounding white space, on the scenario. *)
Lemma handlePostSubmit_creates_witness :
  let env := mkEnv 1700000000000 "0.4fzyo82mvyr" "2023-11-14T22:13:20.000Z" in
  accepted " Soup " "Food" "stir " = true
  /\ posts (snd (handlePostSubmit examples_browser env " Soup " "Food" "stir " scenario))
     = [mkPost "loyw3v284fzyo" "Soup" "Food" "stir" "2023-11-14T22:13:20.000Z";
        post_b; post_a].
Proof.
  intros env.
  assert (H : accepted " Soup " "Food" "stir " = true) by reflexivity.
  split; [exact H|].
  exact (proj1 (handlePostSubmit_creates examples_browser env " Soup " "Food" "stir "
                  scenario H)).
Defined.

(** C2, failing input.  Two valid submissions for which the clock and the
    random source give the same readings: [generateUniqueId] never looks at
    the collection, so the second post gets the id of the first and the ids of
    the collection are no longer distinct. *)
Lemma generateUniqueId_repeats (b : Browser) :
  let env := mkEnv 1700000000000 "0.4fzyo82mvyr" "2023-11-14T22:13:20.000Z" in
  let st1 := snd (handlePostSubmit b env "Hello World" "Tech" "foo" (initial ∅)) in
  let st2 := snd (handlePostSubmit b env "Cooking" "Food" "bar" st1) in
  generateUniqueId env = "loyw3v284fzyo"
  /\ map id (posts st1) = ["loyw3v284fzyo"]
  /\ map id (posts st2) = ["loyw3v284fzyo"; "loyw3v284fzyo"]
  /\ ~ NoDup (map id (posts st2)).
Proof.
  intros env st1 st2.
  assert (H1 : map id (posts st1) = ["loyw3v284fzyo"])
    by (subst st1; now rewrite posts_handlePostSubmit).
  assert (H2 : map id (posts st2) = ["loyw3v284fzyo"; "loyw3v284fzyo"]).
  { subst st2. rewrite posts_handlePostSubmit.
    change (accepted "Cooking" "Food" "bar") with true. cbv iota.
    change (map id (?p :: posts st1)) with (id p :: map id (posts st1)).
    now rewrite H1. }
  split; [reflexivity|]. split; [exact H1|]. split; [exact H2|].
  intros H. rewrite H2 in H.
  apply NoDup_cons in H as [H _]. apply H. left.
Qed.

(** ** The parser never runs out of fuel *)

Lemma skip_ws_length (s : string) : (String.length (JSON.skip_ws s) <= String.length s)%nat.
Proof.
  induction s as [|c s IH]; simpl; [lia|].
  destruct (JSON.is_ws c); simpl; lia.
Qed.

Lemma skip_ws_cons (s : string) (c : ascii) (r : string) :
  JSON.skip_ws s = String c r -> (String.length r < String.length s)%nat.
Proof.
  intros H. pose proof (skip_ws_length s) as Hl. rewrite H in Hl. simpl in Hl. lia.
Qed.

Lemma cons_char_Return (c : ascii) (m : outcome (string * string)) (k r : string) :
  JSON.cons_char c m = Return (k, r) -> exists k', m = Return (k', r).
Proof.
  destruct m as [[k' r']| | | |]; simpl; try discriminate.
  intros [= <- <-]. now exists k'.
Qed.

Lemma cons_char_fuel (c : ascii) (m : outcome (string * string)) :
  JSON.cons_char c m = OutOfFuel -> m = OutOfFuel.
Proof. destruct m as [[k' r']| | | |]; simpl; congruence. Qed.

Lemma parse_chars_total (n : nat) :
  forall s, (String.length s <= n)%nat ->
  JSON.parse_chars s <> OutOfFuel
  /\ forall k r, JSON.parse_chars s = Return (k, r) -> (String.length r < String.length s)%nat.
Proof.
  induction n as [|n IH]; intros s Hs.
  - destruct s; [|simpl in Hs; lia]. split; simpl; [discriminate | intros; discriminate].
  - destruct s as [|c r]; [split; simpl; [discriminate | intros; discriminate]|].
    simpl in Hs. cbn [JSON.parse_chars].
    destruct (code c =? 34).
    { split; [discriminate|]. intros k r' [= <- <-]. simpl. lia. }
    destruct (code c =? 92).
    + destruct r as [|e r1]; [split; [discriminate | intros; discriminate]|].
      destruct (code e =? 117).
      * destruct r1 as [|h1 [|h2 [|h3 [|h4 r5]]]];
          try (split; [discriminate | intros; discriminate]).
        destruct (JSON.hex4 h1 h2 h3 h4) as [m|]; [|split; [discriminate | intros; discriminate]].
        destruct (m <? 256); [|split; [discriminate | intros; discriminate]].
        destruct (IH r5 ltac:(simpl in Hs; lia)) as [H1 H2]. split.
        -- intros H. now apply cons_char_fuel in H.
        -- intros k r' H. apply cons_char_Return in H as [k' H].
           apply H2 in H. simpl. lia.
      * destruct (JSON.unescape e) as [d|]; [|split; [discriminate | intros; discriminate]].
        destruct (IH r1 ltac:(simpl in Hs; lia)) as [H1 H2]. split.
        -- intros H. now apply cons_char_fuel in H.
        -- intros k r' H. apply cons_char_Return in H as [k' H].
           apply H2 in H. simpl. lia.
    + destruct (code c <? 32); [split; [discriminate | intros; discriminate]|].
      destruct (IH r ltac:(lia)) as [H1 H2]. split.
      * intros H. now apply cons_char_fuel in H.
      * intros k r' H. apply cons_char_Return in H as [k' H].
        apply H2 in H. simpl. lia.
Qed.

Lemma strip_prefix_length (p s r : string) :
  JSON.strip_prefix p s = Some r -> (String.length r + String.length p = String.length s)%nat.
Proof.
  revert s. induction p as [|a p IH]; intros s; simpl.
  - intros [= ->]. lia.
  - destruct s as [|b s]; [discriminate|]. destruct (Ascii.eqb a b); [|discriminate].
    intros H. apply IH in H. simpl. lia.
Qed.

Lemma take_digits_length (s : string) :
  (String.length (snd (JSON.take_digits s)) <= String.length s)%nat.
Proof.
  induction s as [|c s IH]; simpl; [lia|].
  destruct (JSObject.is_digit c); [|simpl; lia].
  destruct (JSON.take_digits s) as [ds rest]. simpl in *. lia.
Qed.

Lemma lex_int_length (s lit r : string) :
  JSON.lex_int s = Some (lit, r) -> (String.length r < String.length s)%nat.
Proof.
  unfold JSON.lex_int. destruct s as [|c s]; [discriminate|].
  destruct (code c =? 48); [intros [= <- <-]; simpl; lia|].
  destruct (JSObject.is_digit c); [|discriminate].
  pose proof (take_digits_length s) as H.
  destruct (JSON.take_digits s) as [ds rest]. intros [= <- <-]. simpl in *. lia.
Qed.

Lemma lex_frac_length (s lit r : string) :
  JSON.lex_frac s = Some (lit, r) -> (String.length r <= String.length s)%nat.
Proof.
  unfold JSON.lex_frac. destruct s as [|c s]; [intros [= <- <-]; lia|].
  destruct (code c =? 46); [|intros [= <- <-]; lia].
  pose proof (take_digits_length s) as H.
  destruct (JSON.take_digits s) as [[|d ds] rest]; [discriminate|].
  intros [= <- <-]. simpl in *. lia.
Qed.

Lemma lex_exp_length (s lit r : string) :
  JSON.lex_exp s = Some (lit, r) -> (String.length r <= String.length s)%nat.
Proof.
  unfold JSON.lex_exp. destruct s as [|c s]; [intros [= <- <-]; lia|].
  destruct ((code c =? 101) || (code c =? 69)); [|intros [= <- <-]; lia].
  assert (H : forall r1, (String.length r1 <= String.length s)%nat ->
            match JSON.take_digits r1 with
            | (EmptyString, _) => None
            | (String a ds, rest) => Some (lit, rest)
            end = Some (lit, r) -> (String.length r <= String.length (String c s))%nat).
  { intros r1 Hr1. pose proof (take_digits_length r1) as H.
    destruct (JSON.take_digits r1) as [[|d ds] rest]; [discriminate|].
    intros [= <-]. simpl in *. lia. }
  destruct s as [|g r'].
  - simpl. discriminate.
  - destruct ((code g =? 43) || (code g =? 45)).
    + pose proof (take_digits_length r') as H'.
      destruct (JSON.take_digits r') as [[|d ds] rest]; [discriminate|].
      intros [= <- <-]. simpl in *. lia.
    + pose proof (take_digits_length (String g r')) as H'.
      destruct (JSON.take_digits (String g r')) as [[|d ds] rest]; [discriminate|].
      intros [= <- <-]. simpl in *. lia.
Qed.

Lemma lex_number_length (s lit r : string) :
  JSON.lex_number s = Some (lit, r) -> (String.length r < String.length s)%nat.
Proof.
  unfold JSON.lex_number.
  assert (H : forall sign s1, (String.length s1 <= String.length s)%nat ->
    match JSON.lex_int s1 with
    | None => None
    | Some (i, s2) =>
        match JSON.lex_frac s2 with
        | None => None
        | Some (f, s3) =>
            match JSON.lex_exp s3 with
            | None => None
            | Some (e, s4) => Some (sign +:+ i +:+ f +:+ e, s4)
            end
        end
    end = Some (lit, r) -> (String.length r < String.length s)%nat).
  { intros sign s1 Hs1.
    destruct (JSON.lex_int s1) as [[i s2]|] eqn:Ei; [|discriminate].
    destruct (JSON.lex_frac s2) as [[f s3]|] eqn:Ef; [|discriminate].
    destruct (JSON.lex_exp s3) as [[e s4]|] eqn:Ee; [|discriminate].
    intros [= <- <-]. apply lex_int_length in Ei. apply lex_frac_length in Ef.
    apply lex_exp_length in Ee. lia. }
  destruct s as [|c s']; [apply (H EmptyString); lia|].
  destruct (code c =? 45); apply H; simpl; lia.
Qed.

Lemma parse_atom_total (s : string) :
  JSON.parse_atom s <> OutOfFuel
  /\ forall v r, JSON.parse_atom s = Return (v, r) -> (String.length r < String.length s)%nat.
Proof.
  unfold JSON.parse_atom.
  destruct (JSON.strip_prefix "true" s) as [r1|] eqn:E1.
  { split; [discriminate|]. intros v r [= <- <-].
    apply strip_prefix_length in E1. simpl in E1. lia. }
  destruct (JSON.strip_prefix "false" s) as [r2|] eqn:E2.
  { split; [discriminate|]. intros v r [= <- <-].
    apply strip_prefix_length in E2. simpl in E2. lia. }
  destruct (JSON.strip_prefix "null" s) as [r3|] eqn:E3.
  { split; [discriminate|]. intros v r [= <- <-].
    apply strip_prefix_length in E3. simpl in E3. lia. }
  destruct (JSON.lex_number s) as [[lit r4]|] eqn:E4.
  - split; [discriminate|]. intros v r [= <- <-]. now apply lex_number_length in E4.
  - split; [discriminate | intros; discriminate].
Qed.

Lemma parse_fuel (f : nat) : JSON.fuel_ok f.
Proof.
  induction f as [|f [IHv [IHe IHm]]].
  - repeat split; intros; lia.
  - split; [|split].
    + intros s Hs. cbn [JSON.parse_value].
      destruct (JSON.skip_ws s) as [|c r] eqn:Ew; [stuck|].
      apply skip_ws_cons in Ew.
      destruct (code c =? 123).
      { destruct (JSON.skip_ws r) as [|d r'] eqn:Ew'; [stuck|].
        apply skip_ws_cons in Ew'.
        destruct (code d =? 125).
        - split; [discriminate|]. intros v r0 [= <- <-]. lia.
        - destruct (IHm r [] ltac:(lia)) as [H1 H2]. split; [exact H1|].
          intros v r0 H. apply H2 in H. lia. }
      destruct (code c =? 91).
      { destruct (JSON.skip_ws r) as [|d r'] eqn:Ew'; [stuck|].
        apply skip_ws_cons in Ew'.
        destruct (code d =? 93).
        - split; [discriminate|]. intros v r0 [= <- <-]. lia.
        - destruct (IHe r [] ltac:(lia)) as [H1 H2]. split; [exact H1|].
          intros v r0 H. apply H2 in H. lia. }
      destruct (code c =? 34).
      { destruct (parse_chars_total (String.length r) r ltac:(lia)) as [H1 H2].
        destruct (JSON.parse_chars r) as [[k r1]| | | |]; try stuck; [|congruence].
        split; [discriminate|]. intros v r0 [= <- <-].
        specialize (H2 k r1 eq_refl). lia. }
      destruct (parse_atom_total (String c r)) as [H1 H2]. split; [exact H1|].
      intros v r0 H. apply H2 in H. simpl in H. lia.
    + intros s acc Hs. cbn [JSON.parse_elements].
      destruct (IHv s ltac:(lia)) as [H1 H2].
      destruct (JSON.parse_value f s) as [[v r]| | | |]; try stuck; [|congruence].
      specialize (H2 v r eq_refl). cbn [JSON.bind].
      destruct (JSON.skip_ws r) as [|d r'] eqn:Ew; [stuck|].
      apply skip_ws_cons in Ew.
      destruct (code d =? 44).
      * destruct (IHe r' (v :: acc) ltac:(lia)) as [H3 H4]. split; [exact H3|].
        intros v0 r0 H. apply H4 in H. lia.
      * destruct (code d =? 93); [|stuck].
        split; [discriminate|]. intros v0 r0 [= <- <-]. lia.
    + intros s obj Hs. cbn [JSON.parse_members].
      destruct (JSON.skip_ws s) as [|q r] eqn:Ew; [stuck|].
      apply skip_ws_cons in Ew.
      destruct (code q =? 34); [|stuck].
      destruct (parse_chars_total (String.length r) r ltac:(lia)) as [H1 H2].
      destruct (JSON.parse_chars r) as [[k r1]| | | |]; try stuck; [|congruence].
      specialize (H2 k r1 eq_refl). cbn [JSON.bind].
      destruct (JSON.skip_ws r1) as [|d r2] eqn:Ew1; [stuck|].
      apply skip_ws_cons in Ew1.
      destruct (code d =? 58); [|stuck].
      destruct (IHv r2 ltac:(lia)) as [H3 H4].
      destruct (JSON.parse_value f r2) as [[v r3]| | | |]; try stuck; [|congruence].
      specialize (H4 v r3 eq_refl). cbn [JSON.bind].
      destruct (JSON.skip_ws r3) as [|e r4] eqn:Ew3; [stuck|].
      apply skip_ws_cons in Ew3.
      destruct (code e =? 44).
      * destruct (IHm r4 (JSObject.set k v obj) ltac:(lia)) as [H5 H6].
        split; [exact H5|]. intros v0 r0 H. apply H6 in H. lia.
      * destruct (code e =? 125); [|stuck].
        split; [discriminate|]. intros v0 r0 [= <- <-]. lia.
Qed.

(** [JSON.parse] never runs out of fuel. *)
Lemma parse_fuel_suffices (text : string) : JSON.parse text <> OutOfFuel.
Proof.
  unfold JSON.parse.
  destruct (proj1 (parse_fuel (S (S (2 * String.length text)))) text ltac:(lia)) as [H _].
  destruct (JSON.parse_value _ text) as [[v r]| | | |]; simpl; try congruence.
  destruct (JSON.skip_ws r); discriminate.
Qed.

Lemma loadPosts_fuel_suffices (b : Browser) (st : State) :
  fst (loadPosts b st) <> OutOfFuel.
Proof.
  unfold loadPosts. cbn zeta.
  assert (Hr : forall s : State, fst (render b s) <> OutOfFuel).
  { intros s. rewrite render_run. cbn [fst]. now destruct (page_ok b _). }
  destruct (localStorage st !! "blogPosts") as [text|]; [|apply Hr].
  destruct (truthy text); [|apply Hr].
  pose proof (parse_fuel_suffices text) as H.
  destruct (JSON.parse text) as [v| | | |]; simpl; try congruence.
  destruct v as [| | | |items|]; try discriminate.
  destruct (as_post_list items); [apply Hr | discriminate].
Qed.

(** * Further properties

    Properties of the functions the store API leaves out, and of the store
    functions together with them. *)

(* Closes [x ∈ l] taken as a hypothesis [H] when [x] is none of the elements
   of the explicit list [l]. *)
Ltac no_member H :=
  repeat (apply elem_of_cons in H as [H|H]; [vm_compute in H; discriminate H|]);
  inversion H.

(* Replaces [p] by each post of the scenario in turn. *)
Ltac each_post Hp :=
  apply elem_of_cons in Hp as [->|Hp];
  [|apply elem_of_cons in Hp as [->|Hp]; [|inversion Hp]].

(** ** Trimming and lower-casing *)

Lemma is_space_lower (c : ascii) : is_space (lower c) = is_space c.
Proof. destruct c as [[] [] [] [] [] [] [] []]; reflexivity. Qed.

Lemma lower_lower (c : ascii) : lower (lower c) = lower c.
Proof. destruct c as [[] [] [] [] [] [] [] []]; reflexivity. Qed.

Lemma toLowerCase_idem (s : string) : toLowerCase (toLowerCase s) = toLowerCase s.
Proof. induction s as [|c s IH]; simpl; [reflexivity | now rewrite lower_lower, IH]. Qed.

Lemma toLowerCase_append (a b : string) :
  toLowerCase (a +:+ b) = toLowerCase a +:+ toLowerCase b.
Proof. induction a as [|c a IH]; simpl; [reflexivity | now rewrite IH]. Qed.

Lemma trimStart_toLowerCase (s : string) :
  trimStart (toLowerCase s) = toLowerCase (trimStart s).
Proof.
  induction s as [|c s IH]; simpl; [reflexivity|].
  rewrite is_space_lower. destruct (is_space c); [exact IH | reflexivity].
Qed.

Lemma trimEnd_toLowerCase (s : string) :
  trimEnd (toLowerCase s) = toLowerCase (trimEnd s).
Proof.
  induction s as [|c s IH]; simpl; [reflexivity|].
  rewrite IH, is_space_lower.
  destruct (trimEnd s); simpl; [destruct (is_space c)|]; reflexivity.
Qed.

Lemma trim_toLowerCase (s : string) : trim (toLowerCase s) = toLowerCase (trim s).
Proof. unfold trim. now rewrite trimStart_toLowerCase, trimEnd_toLowerCase. Qed.

Lemma trimEnd_idem (s : string) : trimEnd (trimEnd s) = trimEnd s.
Proof.
  induction s as [|c s IH]; [reflexivity|].
  cbn [trimEnd]. destruct (trimEnd s) as [|d e] eqn:E.
  - destruct (is_space c) eqn:Ec; [reflexivity|]. cbn [trimEnd]. now rewrite Ec.
  - cbn [trimEnd]. cbn [trimEnd] in IH. now rewrite IH.
Qed.

Lemma trimStart_length (s : string) :
  (String.length (trimStart s) <= String.length s)%nat.
Proof.
  induction s as [|c s IH]; simpl; [lia|]. destruct (is_space c); simpl; lia.
Qed.

Lemma trimStart_fixed (c : ascii) (r : string) :
  trimStart (String c r) = String c r -> is_space c = false.
Proof.
  simpl. destruct (is_space c); [|reflexivity].
  intros H. pose proof (trimStart_length r) as Hl. rewrite H in Hl. simpl in Hl. lia.
Qed.

Lemma trimStart_trimStart (s : string) : trimStart (trimStart s) = trimStart s.
Proof.
  induction s as [|c s IH]; [reflexivity|].
  simpl. destruct (is_space c) eqn:E; [exact IH|]. simpl. now rewrite E.
Qed.

Lemma trimStart_trimEnd (s : string) :
  trimStart s = s -> trimStart (trimEnd s) = trimEnd s.
Proof.
  destruct s as [|c r]; [reflexivity|]. intros H. apply trimStart_fixed in H.
  cbn [trimEnd]. destruct (trimEnd r); [rewrite H|]; simpl; now rewrite H.
Qed.

(** Trimming twice is trimming once. *)
Lemma trim_idem (s : string) : trim (trim s) = trim s.
Proof.
  unfold trim. rewrite (trimStart_trimEnd (trimStart s)) by apply trimStart_trimStart.
  apply trimEnd_idem.
Qed.

Lemma substring_of_toLowerCase (t s : string) :
  substring_of t s -> substring_of (toLowerCase t) (toLowerCase s).
Proof.
  intros [a [b ->]]. exists (toLowerCase a), (toLowerCase b).
  now rewrite !toLowerCase_append.
Qed.

(** X20.  The search does not depend on the case of the text in the search
    box: the text and its lower-casing end the call in the same way and leave
    the page in the same state. *)
Theorem searchPosts_ignores_case (b : Browser) (searchInput : string) (st : State) :
  searchPosts b (toLowerCase searchInput) st = searchPosts b searchInput st.
Proof.
  unfold searchPosts. now rewrite trim_toLowerCase, toLowerCase_idem.
Qed.

(** With a search text that is not blank the container shows the selected
    posts up to the first whose card lacks a button. *)
Lemma searchPosts_selected (b : Browser) (searchInput : string) (st : State) :
  truthy (trim searchInput) = true ->
  let selected := List.filter (matches (toLowerCase (trim searchInput))) (posts st) in
  let r := searchPosts b searchInput st in
  shown (postsContainer (snd r)) = prefix_while (card b) selected
  /\ (selected <> [] -> fst r = thrown_unless (cards_ok b selected)).
Proof.
  intros Ht selected r. subst r selected. rewrite searchPosts_run. cbn zeta. rewrite Ht.
  destruct (List.filter _ (posts st)) as [|q hits]; [split; [reflexivity | congruence]|].
  cbn [fst snd postsContainer set_postsContainer]. split; [apply shown_displayed | reflexivity].
Qed.

(** X21.  For text within U+0000..U+00FF, which is all a [string] of this
    development holds and on which [toLowerCase] works code unit by code
    unit: with a search text that is not blank, every post whose title or
    content contains the trimmed text, letter for letter, is among the posts
    selected.  When the cards of the selected posts have their buttons the
    call returns and the post is among the posts shown.  The posts shown are
    posts of the collection, in its order. *)
Theorem searchPosts_finds_occurrences
    (b : Browser) (searchInput : string) (st : State) (p : Post) :
  truthy (trim searchInput) = true ->
  p ∈ posts st ->
  substring_of (trim searchInput) (title p)
  \/ substring_of (trim searchInput) (content p) ->
  let selected := List.filter (matches (toLowerCase (trim searchInput))) (posts st) in
  let r := searchPosts b searchInput st in
  p ∈ selected
  /\ (cards_ok b selected = true ->
      fst r = Return tt /\ p ∈ shown (postsContainer (snd r)))
  /\ sublist (shown (postsContainer (snd r))) (posts st).
Proof.
  intros Ht Hp Hs selected r.
  assert (Hm : matches (toLowerCase (trim searchInput)) p = true).
  { apply matches_spec. destruct Hs as [H|H]; [left|right];
      now apply substring_of_toLowerCase. }
  assert (Hin : p ∈ selected).
  { apply list_elem_of_In, filter_In. split; [now apply list_elem_of_In | exact Hm]. }
  destruct (searchPosts_selected b searchInput st Ht) as [Hshown Hfst].
  fold selected r in Hshown, Hfst.
  split; [exact Hin|]. split.
  - intros Hok. rewrite Hshown, (forallb_prefix_while _ _ Hok). split; [|exact Hin].
    rewrite Hfst, Hok; [reflexivity|]. intros E. rewrite E in Hin. inversion Hin.
  - rewrite Hshown. etransitivity; [apply sublist_prefix_while|].
    subst selected.
    rewrite (filter_bool_prop _ (fun q => matches (toLowerCase (trim searchInput)) q = true));
      [apply sublist_filter | tauto].
Qed.

(** A search text in capitals and with surrounding spaces, on the scenario. *)
Lemma searchPosts_finds_occurrences_witness :
  truthy (trim " World ") = true
  /\ post_a ∈ posts scenario
  /\ post_a ∈ shown (postsContainer (snd (searchPosts examples_browser " World " scenario))).
Proof.
  assert (H : truthy (trim " World ") = true) by reflexivity.
  assert (Hp : post_a ∈ posts scenario).
  { apply list_elem_of_In. right. left. reflexivity. }
  assert (Hs : substring_of (trim " World ") (title post_a)
               \/ substring_of (trim " World ") (content post_a)).
  { left. exists "Hello ", "". reflexivity. }
  split; [exact H|]. split; [exact Hp|].
  exact (proj2 (proj1 (proj2
    (searchPosts_finds_occurrences examples_browser " World " scenario post_a H Hp Hs))
    eq_refl)).
Defined.

(** ** Filtering by category *)

Lemma category_filter (c : string) (ps : list Post) :
  List.filter (fun post => String.eqb (category post) c) ps
  = filter (fun p => category p = c) ps.
Proof. apply filter_bool_prop. intros p. apply String.eqb_eq. Qed.

(** [filterByCategory] in one step. *)
Lemma filterByCategory_run (b : Browser) (c : string) (st : State) :
  filterByCategory b c st
  = if String.eqb c "all"
    then (thrown_unless (cards_ok b (posts st)),
          set_postsContainer (displayed b (posts st)) st)
    else match filter (fun p => category p = c) (posts st) with
         | [] => (Return tt,
                  showNotification ("No posts found in category " +:+ quoted c) "info" st)
         | hits =>
             if cards_ok b hits
             then (Return tt,
                   showNotification ("Showing posts in category " +:+ quoted c) "info"
                     (set_postsContainer (displayed b hits) st))
             else (TypeError, set_postsContainer (displayed b hits) st)
         end.
Proof.
  unfold filterByCategory. rewrite category_filter.
  destruct (String.eqb c "all"); [apply displayPosts_run|].
  destruct (filter _ (posts st)) as [|p hits]; [reflexivity|].
  unfold mbind, Script_bind, modify. rewrite displayPosts_run.
  now destruct (cards_ok b (p :: hits)).
Qed.

(** X4.  [filterByCategory] changes neither the collection nor the storage.
    For [all] it is [displayPosts] on the whole collection.  For another
    category without posts it leaves [postsContainer] as it was, raises the
    information notification and returns.  For a category with posts it
    displays these posts, in order, up to the first whose card lacks a button:
    when every card has its buttons it shows exactly the posts of the
    category, announces them and returns; otherwise it throws a TypeError and
    announces nothing. *)
Theorem filterByCategory_shows (b : Browser) (c : string) (st : State) :
  let r := filterByCategory b c st in
  let st' := snd r in
  let hits := filter (fun p => category p = c) (posts st) in
  posts st' = posts st
  /\ localStorage st' = localStorage st
  /\ (c = "all" -> r = displayPosts b (posts st) st)
  /\ (c <> "all" -> hits = [] ->
      fst r = Return tt
      /\ postsContainer st' = postsContainer st
      /\ notifications st'
         = notifications st ++ [("No posts found in category " +:+ quoted c, "info")])
  /\ (c <> "all" -> hits <> [] ->
      postsContainer st' = Cards (prefix_while (card b) hits)
      /\ (cards_ok b hits = true ->
          fst r = Return tt
          /\ postsContainer st' = Cards hits
          /\ notifications st'
             = notifications st
               ++ [("Showing posts in category " +:+ quoted c, "info")])
      /\ (cards_ok b hits = false ->
          fst r = TypeError /\ notifications st' = notifications st)).
Proof.
  intros r st' hits. subst st' r hits. rewrite filterByCategory_run.
  destruct (String.eqb c "all") eqn:E.
  - apply String.eqb_eq in E. rewrite displayPosts_run.
    repeat split; try reflexivity; intros; congruence.
  - apply String.eqb_neq in E.
    destruct (filter (fun p => category p = c) (posts st)) as [|q l] eqn:F.
    + repeat split; try reflexivity; intros; congruence.
    + cbv beta iota zeta.
      split; [now destruct (cards_ok b (q :: l))|].
      split; [now destruct (cards_ok b (q :: l))|].
      split; [congruence|]. split; [congruence|]. intros _ _.
      destruct (cards_ok b (q :: l)) eqn:Hok;
        cbn [fst snd postsContainer notifications showNotification set_postsContainer
             displayed].
      * rewrite (forallb_prefix_while _ _ Hok).
        split; [reflexivity|]. split; [intros _; repeat split | discriminate].
      * split; [reflexivity|]. split; [discriminate | intros _; split; reflexivity].
Qed.

(** ** Category links *)

Lemma tally_length (c : string) (ps : list Post) :
  tally c ps = N.of_nat (List.length (filter (fun p => category p = c) ps)).
Proof. unfold tally. now rewrite category_filter. Qed.

(** A link of the side bar is the [all] link or the link of a category of
    the collection, with its count. *)
Lemma elem_of_category_links (b : Browser) (ps : list Post) (l : CategoryLink) :
  (forall p, p ∈ ps -> plain (category p) = true) ->
  l ∈ category_links b ps ->
  data_category l = "all"
  \/ exists c, c ∈ map category ps /\ l = mkLink c c (Num (tally c ps)).
Proof.
  intros Hp Hl. unfold category_links in Hl.
  assert (Hitems :
    l ∈ map (fun kv : string * count => mkLink kv.1 kv.1 kv.2)
          (prefix_while (entry_link b) (categories_of ps)) ->
    exists c, c ∈ map category ps /\ l = mkLink c c (Num (tally c ps))).
  { intros Hin. apply list_elem_of_In, in_map_iff in Hin as [[c n] [<- Hin]].
    apply list_elem_of_In in Hin.
    apply (fun H => elem_of_sublist _ _ _ H (sublist_prefix_while _ _)) in Hin.
    rewrite (categories_of_plain ps Hp) in Hin.
    apply list_elem_of_In, in_map_iff in Hin as [c' [[= <- <-] Hin]].
    exists c'. split; [|reflexivity].
    apply elem_of_first_encounter, list_elem_of_In, Hin. }
  destruct (links_ok b ps); [|right; auto].
  destruct (categories_of ps); [right; auto|].
  apply elem_of_cons in Hl as [->|Hl]; [left; reflexivity | right; auto].
Qed.

(** X5.  With plain categories, a link that [updateCategoriesList] has put
    into the side bar for a category other than [all] leads, through
    [filterByCategory], to the posts of that category: there are as many as
    the count shown in the link, and at least one.  They are displayed up to
    the first whose card lacks a button; when every card has its buttons the
    call returns and the view holds exactly these posts. *)
Theorem category_link_shows_its_count (b : Browser) (st : State) (l : CategoryLink) :
  (forall p, p ∈ posts st -> plain (category p) = true) ->
  let st' := snd (updateCategoriesList b st) in
  l ∈ categoriesList st' ->
  data_category l <> "all" ->
  let hits := filter (fun p => category p = data_category l) (posts st') in
  let r := filterByCategory b (data_category l) st' in
  hits <> []
  /\ category_count l = Num (N.of_nat (List.length hits))
  /\ shown (postsContainer (snd r)) = prefix_while (card b) hits
  /\ (cards_ok b hits = true ->
      fst r = Return tt /\ shown (postsContainer (snd r)) = hits).
Proof.
  intros Hp st' Hl Hne hits r. subst st' hits r.
  rewrite updateCategoriesList_run in *. cbn [snd categoriesList set_categoriesList posts] in *.
  destruct (elem_of_category_links b (posts st) l Hp Hl) as [Hall | [c [Hc ->]]];
    [contradiction|].
  cbn [data_category category_count] in *.
  apply list_elem_of_In, in_map_iff in Hc as [p [Hpc Hin]].
  assert (Hhit : p ∈ filter (fun q => category q = c) (posts st)).
  { apply list_elem_of_filter. split; [exact Hpc | now apply list_elem_of_In]. }
  rewrite filterByCategory_run, (proj2 (String.eqb_neq c "all") Hne).
  cbn [posts set_categoriesList].
  destruct (filter (fun q => category q = c) (posts st)) as [|q hits] eqn:F;
    [inversion Hhit|].
  split; [discriminate|]. split; [now rewrite tally_length, F|].
  destruct (cards_ok b (q :: hits)) eqn:Hok;
    cbn [snd fst postsContainer showNotification set_postsContainer displayed shown].
  - split; [reflexivity|]. intros _. split; [reflexivity|].
    now apply forallb_prefix_while.
  - split; [reflexivity | discriminate].
Qed.

(** The link of the category Food in the side bar of the scenario. *)
Lemma category_link_shows_its_count_witness :
  let l := mkLink "Food" "Food" (Num 1) in
  let st' := snd (updateCategoriesList examples_browser scenario) in
  l ∈ categoriesList st'
  /\ shown (postsContainer (snd (filterByCategory examples_browser (data_category l) st')))
     = filter (fun p => category p = data_category l) (posts st').
Proof.
  intros l st'.
  assert (H : forall p, p ∈ posts scenario -> plain (category p) = true).
  { intros p Hp. each_post Hp; reflexivity. }
  assert (Hl : l ∈ categoriesList st').
  { apply list_elem_of_In. right. left. reflexivity. }
  assert (Hne : data_category l <> "all") by discriminate.
  split; [exact Hl|].
  exact (proj2 (proj2 (proj2 (proj2
    (category_link_shows_its_count examples_browser scenario l H Hl Hne))) eq_refl)).
Defined.

(** ** Category links add up *)

Lemma total_links_cons (f : string -> N) (c : string) (l : list string) :
  sum_counts (map (fun c => mkLink c c (Num (f c))) (c :: l))
  = f c + sum_counts (map (fun c => mkLink c c (Num (f c))) l).
Proof. reflexivity. Qed.

Lemma total_links_ext (f g : string -> N) (l : list string) :
  (forall c, c ∈ l -> f c = g c) ->
  sum_counts (map (fun c => mkLink c c (Num (f c))) l)
  = sum_counts (map (fun c => mkLink c c (Num (g c))) l).
Proof.
  induction l as [|a l IH]; intros H; [reflexivity|].
  rewrite !total_links_cons, (H a) by left. f_equal. apply IH.
  intros c Hc. apply H. now right.
Qed.

Lemma filter_other_absent (c0 : string) (l : list string) :
  c0 ∉ l -> filter (fun d => d <> c0) l = l.
Proof.
  induction l as [|a l IH]; intros H; [reflexivity|].
  apply not_elem_of_cons in H as [Ha Hl].
  rewrite filter_cons, decide_True by congruence. now rewrite IH.
Qed.

Lemma total_links_split (f : string -> N) (c0 : string) (l : list string) :
  NoDup l ->
  sum_counts (map (fun c => mkLink c c (Num (f c))) l)
  = (if decide (c0 ∈ l) then f c0 else 0)
    + sum_counts (map (fun c => mkLink c c (Num (f c))) (filter (fun d => d <> c0) l)).
Proof.
  induction l as [|a l IH]; intros Hnd.
  - rewrite decide_False by (intros H; inversion H). reflexivity.
  - apply NoDup_cons in Hnd as [Ha Hnd]. rewrite total_links_cons, filter_cons.
    destruct (decide (a = c0)) as [->|Hne].
    + rewrite decide_True by left. rewrite decide_False by tauto.
      now rewrite filter_other_absent.
    + rewrite (decide_True (P := a <> c0)) by assumption.
      rewrite total_links_cons, (IH Hnd).
      destruct (decide (c0 ∈ l)) as [Hin|Hin].
      * rewrite decide_True by now right. lia.
      * rewrite decide_False; [lia|]. intros H.
        apply elem_of_cons in H as [H|H]; congruence.
Qed.

Lemma tally_absent (c : string) (ps : list Post) :
  c ∉ map category ps -> tally c ps = 0.
Proof.
  unfold tally. induction ps as [|p ps IH]; intros H; [reflexivity|].
  cbn [map] in H. apply not_elem_of_cons in H as [Hc Hps].
  cbn [List.filter]. rewrite (proj2 (String.eqb_neq (category p) c)) by congruence.
  now apply IH.
Qed.

Lemma total_first_encounter (ps : list Post) :
  sum_counts (map (fun c => mkLink c c (Num (tally c ps)))
             (first_encounter (map category ps)))
  = N.of_nat (List.length ps).
Proof.
  induction ps as [|p ps IH]; [reflexivity|].
  change (map category (p :: ps)) with (category p :: map category ps).
  cbn [first_encounter]. rewrite total_links_cons.
  rewrite (total_links_ext (fun c => tally c (p :: ps)) (fun c => tally c ps)).
  - rewrite (total_links_split _ (category p) _ (NoDup_first_encounter _)) in IH.
    rewrite tally_cons, String.eqb_refl.
    destruct (decide (category p ∈ first_encounter (map category ps))) as [Hin|Hin].
    + cbn [List.length]. lia.
    + rewrite elem_of_first_encounter in Hin. rewrite (tally_absent _ _ Hin).
      cbn [List.length]. lia.
  - intros c Hc. apply list_elem_of_filter in Hc as [Hc _].
    rewrite tally_cons, (proj2 (String.eqb_neq (category p) c)) by congruence.
    reflexivity.
Qed.

Lemma category_links_ok (b : Browser) (ps : list Post) :
  (forall p, p ∈ ps -> plain (category p) = true) ->
  links_ok b ps = true ->
  category_links b ps
  = match ps with
    | [] => []
    | _ :: _ =>
        mkLink "all" "All" (Num (N.of_nat (List.length ps)))
        :: map (fun c => mkLink c c (Num (tally c ps)))
               (first_encounter (map category ps))
    end.
Proof.
  intros Hp Hok. unfold category_links. rewrite Hok.
  unfold links_ok in Hok. rewrite (forallb_prefix_while _ _ Hok).
  rewrite (categories_of_plain ps Hp), map_map.
  destruct ps as [|p ps]; reflexivity.
Qed.

(** X6.  With plain categories whose links are all found, the side bar that
    [updateCategoriesList] renders holds counts that add up to the number of
    posts, which is the count of the [all] link in front of them. *)
Theorem category_counts_add_up (b : Browser) (st : State) :
  (forall p, p ∈ posts st -> plain (category p) = true) ->
  links_ok b (posts st) = true ->
  let r := updateCategoriesList b st in
  let links := categoriesList (snd r) in
  fst r = Return tt
  /\ sum_counts (tail links) = N.of_nat (List.length (posts st))
  /\ (posts st <> [] ->
      head links = Some (mkLink "all" "All" (Num (sum_counts (tail links))))).
Proof.
  intros Hp Hok r links. subst links r. rewrite updateCategoriesList_run.
  cbn [fst snd categoriesList set_categoriesList]. rewrite Hok.
  rewrite (category_links_ok b _ Hp Hok).
  pose proof (total_first_encounter (posts st)) as Ht.
  split; [reflexivity|].
  destruct (posts st) as [|p ps] eqn:E; [split; [reflexivity | congruence]|].
  cbn [tail head]. rewrite Ht. split; [reflexivity | intros _; reflexivity].
Qed.

(** The two category links of the scenario count one post each. *)
Lemma category_counts_add_up_witness :
  (forall p, p ∈ posts scenario -> plain (category p) = true)
  /\ links_ok examples_browser (posts scenario) = true
  /\ sum_counts (tail (categoriesList (snd (updateCategoriesList examples_browser scenario))))
     = 2.
Proof.
  assert (H : forall p, p ∈ posts scenario -> plain (category p) = true).
  { intros p Hp. each_post Hp; reflexivity. }
  assert (Hok : links_ok examples_browser (posts scenario) = true) by reflexivity.
  split; [exact H|]. split; [exact Hok|].
  exact (proj1 (proj2 (category_counts_add_up examples_browser scenario H Hok))).
Defined.

(** ** Recent posts and the single post view *)

Lemma map_take {A B : Type} (f : A -> B) (n : nat) (l : list A) :
  map f (take n l) = take n (map f l).
Proof.
  revert l. induction n as [|n IH]; intros [|a l]; simpl; try reflexivity.
  now rewrite IH.
Qed.

Lemma recent_links_ok (b : Browser) (ps : list Post) :
  recent_ok b ps = true ->
  recent_links b ps = map (fun post => mkRecent (id post) (title post)) (take 5 ps).
Proof. intros H. unfold recent_links. now rewrite (forallb_prefix_while _ _ H). Qed.

(** X7.  After a valid submission for which every card and link of the page
    has the element looked up in it, the list of recent posts starts with the
    new post (its id and trimmed title), followed by the first four posts
    there were; it has at most five entries.  When the list showed the first
    five posts before, the new post is followed by the first four of the
    former entries. *)
Theorem recent_after_create
    (b : Browser) (env : Env) (t c x : string) (st : State) :
  accepted t c x = true ->
  let newPost :=
    mkPost (generateUniqueId env) (trim t) c (trim x) (Date_toISOString env) in
  page_ok b (newPost :: posts st) = true ->
  let st' := snd (handlePostSubmit b env t c x st) in
  let link := fun post => mkRecent (id post) (title post) in
  recentPostsList st'
  = mkRecent (generateUniqueId env) (trim t) :: map link (take 4 (posts st))
  /\ (List.length (recentPostsList st') <= 5)%nat
  /\ (recentPostsList st = map link (take 5 (posts st)) ->
      recentPostsList st'
      = mkRecent (generateUniqueId env) (trim t) :: take 4 (recentPostsList st)).
Proof.
  intros H newPost Hok st' link. subst st'.
  rewrite handlePostSubmit_unfold, H, handlePostSubmit_timeout_run. cbn zeta.
  fold newPost. rewrite Hok.
  cbn [snd recentPostsList showNotification rendered posts setItem_blogPosts
       set_localStorage unshift set_posts].
  unfold page_ok in Hok. apply andb_true_iff in Hok as [Hok Hr].
  rewrite Hok, (recent_links_ok _ _ Hr). fold link.
  assert (Hlist : map link (take 5 (newPost :: posts st))
                  = mkRecent (generateUniqueId env) (trim t)
                    :: map link (take 4 (posts st))) by reflexivity.
  rewrite Hlist. split; [reflexivity|]. split.
  - cbn [List.length]. rewrite length_map, length_take. lia.
  - intros Hsync. rewrite Hsync, !map_take, take_take. reflexivity.
Qed.

(** The recent posts of the scenario after one more post. *)
Lemma recent_after_create_witness :
  let env := mkEnv 1700000000000 "0.4fzyo82mvyr" "2023-11-14T22:13:20.000Z" in
  accepted " Soup " "Food" "stir " = true
  /\ recentPostsList
       (snd (handlePostSubmit examples_browser env " Soup " "Food" "stir " scenario))
     = [mkRecent "loyw3v284fzyo" "Soup"; mkRecent "b" "Cooking";
        mkRecent "a" "Hello World"].
Proof.
  intros env.
  assert (H : accepted " Soup " "Food" "stir " = true) by reflexivity.
  split; [exact H|].
  exact (proj1 (recent_after_create examples_browser env " Soup " "Food" "stir "
                  scenario H eq_refl)).
Defined.

Lemma find_Some_first (postId : string) (ps : list Post) (p : Post) :
  List.find (fun q => String.eqb (id q) postId) ps = Some p ->
  exists i, findIndex (fun q => String.eqb (id q) postId) ps = Some i
            /\ ps !! i = Some p /\ id p = postId.
Proof.
  induction ps as [|a ps IH]; [discriminate|].
  cbn [List.find findIndex]. destruct (String.eqb (id a) postId) eqn:E.
  - intros [= <-]. exists O. apply String.eqb_eq in E. auto.
  - intros H. destruct (IH H) as [i [Hi [Hp Hid]]]. exists (S i).
    rewrite Hi. auto.
Qed.

Lemma find_None_absent (postId : string) (ps : list Post) :
  List.find (fun q => String.eqb (id q) postId) ps = None <->
  forall p, p ∈ ps -> id p <> postId.
Proof.
  induction ps as [|a ps IH]; cbn [List.find].
  - split; [intros _ p Hp; inversion Hp | reflexivity].
  - destruct (String.eqb (id a) postId) eqn:E.
    + apply String.eqb_eq in E. split; [discriminate|].
      intros H. exfalso. apply (H a); [left | exact E].
    + apply String.eqb_neq in E. rewrite IH. split.
      * intros H p Hp. apply elem_of_cons in Hp as [->|Hp]; auto.
      * intros H p Hp. apply H. now right.
Qed.

Lemma NoDup_id_unique (ps : list Post) (p q : Post) :
  NoDup (map id ps) -> p ∈ ps -> q ∈ ps -> id p = id q -> p = q.
Proof.
  induction ps as [|a ps IH]; intros Hnd Hp Hq Hid; [inversion Hp|].
  cbn [map] in Hnd. apply NoDup_cons in Hnd as [Ha Hnd].
  assert (Hin : forall r, r ∈ ps -> id r ∈ map id ps).
  { intros r Hr. apply list_elem_of_In, in_map, list_elem_of_In, Hr. }
  apply elem_of_cons in Hp as [->|Hp]; apply elem_of_cons in Hq as [->|Hq].
  - reflexivity.
  - exfalso. apply Ha. rewrite Hid. now apply Hin.
  - exfalso. apply Ha. rewrite <- Hid. now apply Hin.
  - now apply IH.
Qed.

(** X8.  A link that [updateRecentPostsList] has put into the list belongs to
    a post of the collection, and [showPost] with the id of the link is
    [displayPosts] on one post of the collection with that id: the view holds
    this post and the call returns when its card has its buttons; otherwise
    the view is left empty and the call throws a TypeError.  When the ids of
    the collection are distinct the title of the post is the text of the
    link. *)
Theorem recent_link_shows_post (b : Browser) (st : State) (l : RecentLink) :
  let st' := snd (updateRecentPostsList b st) in
  l ∈ recentPostsList st' ->
  exists p,
    showPost b (data_id l) st' = displayPosts b [p] st'
    /\ p ∈ posts st' /\ id p = data_id l
    /\ (NoDup (map id (posts st')) -> title p = recent_text l)
    /\ fst (showPost b (data_id l) st') = thrown_unless (card b p)
    /\ shown (postsContainer (snd (showPost b (data_id l) st')))
       = (if card b p then [p] else []).
Proof.
  intros st' Hl. subst st'. rewrite updateRecentPostsList_run in *.
  cbn [snd recentPostsList set_recentPostsList posts] in *.
  set (st' := set_recentPostsList _ st).
  unfold recent_links in Hl.
  apply list_elem_of_In, in_map_iff in Hl as [q [<- Hq]].
  apply list_elem_of_In in Hq.
  apply (fun H => elem_of_sublist _ _ _ H (sublist_prefix_while _ _)) in Hq.
  assert (Hqin : q ∈ posts st).
  { apply list_elem_of_lookup in Hq as [i Hi]. apply lookup_take_Some in Hi as [Hi _].
    apply list_elem_of_lookup. eauto. }
  cbn [data_id recent_text]. unfold showPost.
  change (posts st') with (posts st).
  destruct (List.find _ (posts st)) as [p|] eqn:F.
  - destruct (find_Some_first _ _ _ F) as [i [_ [Hp Hid]]].
    assert (Hpin : p ∈ posts st) by (apply list_elem_of_lookup; eauto).
    exists p. rewrite displayPosts_run.
    cbn [fst snd postsContainer set_postsContainer displayed prefix_while cards_ok
         forallb shown].
    rewrite andb_true_r.
    split; [reflexivity|]. split; [exact Hpin|]. split; [exact Hid|].
    split; [|split; [reflexivity | now destruct (card b p)]].
    intros Hnd. f_equal. now apply (NoDup_id_unique (posts st)).
  - exfalso. apply (proj1 (find_None_absent _ _) F q Hqin). reflexivity.
Qed.

(** The second recent link of the scenario. *)
Lemma recent_link_shows_post_witness :
  let l := mkRecent "a" "Hello World" in
  let st' := snd (updateRecentPostsList examples_browser scenario) in
  l ∈ recentPostsList st'
  /\ exists p,
       showPost examples_browser "a" st' = displayPosts examples_browser [p] st'
       /\ p ∈ posts st' /\ id p = "a"
       /\ (NoDup (map id (posts st')) -> title p = "Hello World")
       /\ fst (showPost examples_browser "a" st') = thrown_unless (card examples_browser p)
       /\ shown (postsContainer (snd (showPost examples_browser "a" st')))
          = (if card examples_browser p then [p] else []).
Proof.
  intros l st'.
  assert (Hl : l ∈ recentPostsList st').
  { apply list_elem_of_In. right. left. reflexivity. }
  split; [exact Hl|].
  exact (recent_link_shows_post examples_browser scenario l Hl).
Defined.

(** X9.  For an id that no post has, [showPost] returns and leaves the page
    as it is, and [openEditForm] fills and shows no form. *)
Theorem showPost_unknown_id (b : Browser) (postId : string) (st : State) :
  (forall p, p ∈ posts st -> id p <> postId) ->
  showPost b postId st = (Return tt, st) /\ openEditForm postId st = None.
Proof.
  intros H. apply find_None_absent in H. unfold showPost, openEditForm.
  now rewrite H.
Qed.

(** An id that the scenario does not hold. *)
Lemma showPost_unknown_id_witness :
  (forall p, p ∈ posts scenario -> id p <> "zzz")
  /\ showPost examples_browser "zzz" scenario = (Return tt, scenario)
  /\ openEditForm "zzz" scenario = None.
Proof.
  assert (H : forall p, p ∈ posts scenario -> id p <> "zzz").
  { intros p Hp. each_post Hp; discriminate. }
  split; [exact H|].
  exact (showPost_unknown_id examples_browser "zzz" scenario H).
Defined.

(** ** Invariants of the collection *)

Lemma posts_handleEditSubmit (b : Browser) (postId t c x : string) (st : State) :
  posts (snd (handleEditSubmit b postId t c x st))
  = if accepted t c x
    then match findIndex (fun p => String.eqb (id p) postId) (posts st) with
         | Some i =>
             alter (fun old => mkPost (id old) (trim t) c (trim x) (createdAt old))
                   i (posts st)
         | None => posts st
         end
    else posts st.
Proof.
  rewrite handleEditSubmit_unfold. destruct (accepted t c x); [|reflexivity].
  rewrite handleEditSubmit_timeout_run.
  destruct (findIndex _ (posts st)); [|reflexivity].
  cbn zeta. now destruct (page_ok b _).
Qed.

Lemma accepted_fields (t c x : string) :
  accepted t c x = true ->
  truthy (trim t) = true /\ truthy c = true /\ truthy (trim x) = true.
Proof.
  unfold accepted. intros H. apply andb_true_iff in H as [H Hx].
  apply andb_true_iff in H as [Ht Hc]. auto.
Qed.

Lemma well_formed_submitted (i t c x d : string) :
  accepted t c x = true -> well_formed (mkPost i (trim t) c (trim x) d).
Proof.
  intros H. destruct (accepted_fields _ _ _ H) as [Ht [Hc Hx]].
  unfold well_formed. cbn [title category content].
  repeat split; try assumption; apply trim_idem.
Qed.

(** X10.  Every sequence of create, update and delete actions keeps the posts
    well formed: title, category and content not empty, title and content
    without surrounding white space. *)
Theorem well_formed_kept (b : Browser) (acts : list action) (st : State) :
  Forall well_formed (posts st) -> Forall well_formed (posts (run b acts st)).
Proof.
  revert st. induction acts as [|a acts IH]; intros st H; [exact H|].
  apply (IH (step b a st)). destruct a as [env t c x | i t c x | i]; cbn [step].
  - rewrite posts_handlePostSubmit. destruct (accepted t c x) eqn:E; [|exact H].
    constructor; [now apply well_formed_submitted | exact H].
  - rewrite posts_handleEditSubmit. destruct (accepted t c x) eqn:E; [|exact H].
    destruct (findIndex _ (posts st)); [|exact H].
    apply Forall_alter; [exact H|]. intros old _ _. now apply well_formed_submitted.
  - rewrite posts_deletePost. rewrite Forall_forall in *. intros p Hp.
    apply list_elem_of_filter in Hp as [_ Hp]. now apply H.
Qed.

(** A create, an edit of the post just created, a delete and an edit that
    finds nothing, on the scenario. *)
Lemma well_formed_kept_witness :
  let env := mkEnv 1700000000000 "0.4fzyo82mvyr" "2023-11-14T22:13:20.000Z" in
  let acts := [Create env " Soup " "Food" "stir ";
               Update "loyw3v284fzyo" " Broth " " " "simmer";
               Delete "a";
               Update "zzz" "x" "y" "z"] in
  Forall well_formed (posts scenario)
  /\ Forall well_formed (posts (run examples_browser acts scenario)).
Proof.
  intros env acts.
  assert (H : Forall well_formed (posts scenario)).
  { repeat (constructor; [repeat split|]). constructor. }
  split; [exact H|].
  exact (well_formed_kept examples_browser acts scenario H).
Defined.

Lemma alter_same {A : Type} (f : A -> A) (i : nat) (l : list A) (x : A) :
  l !! i = Some x -> f x = x -> alter f i l = l.
Proof.
  revert i. induction l as [|a l IH]; intros [|i] Hi Hf; simpl in *; try discriminate.
  - injection Hi as ->. now rewrite Hf.
  - f_equal. now apply IH.
Qed.

(** X11.  On a well-formed collection, submitting the edit form with the values
    [openEditForm] assigned to it changes no post, and the same collection is
    written to storage again.  The page is then rendered: when every card and
    link has the element looked up in it the call returns and the success
    notification is raised; otherwise the callback throws a TypeError and
    raises no notification. *)
Theorem edit_form_unchanged
    (b : Browser) (postId : string) (st : State) (form : EditForm) :
  Forall well_formed (posts st) ->
  openEditForm postId st = Some form ->
  let r := handleEditSubmit b (edit_post_id form) (edit_post_title form)
             (edit_post_category form) (edit_post_content form) st in
  let st' := snd r in
  edit_post_id form = postId
  /\ posts st' = posts st
  /\ localStorage st' !! "blogPosts" = Some (JSON_stringify (posts st))
  /\ fst r = thrown_unless (page_ok b (posts st))
  /\ notifications st'
     = (if page_ok b (posts st)
        then notifications st ++ [("Post updated successfully!", "success")]
        else notifications st).
Proof.
  intros Hwf Hopen r st'. subst st' r. unfold openEditForm in Hopen.
  destruct (List.find _ (posts st)) as [p|] eqn:F; [|discriminate].
  injection Hopen as <-. cbn [edit_post_id edit_post_title edit_post_category
    edit_post_content].
  destruct (find_Some_first _ _ _ F) as [i [Hi [Hp Hid]]].
  assert (Hpw : well_formed p).
  { rewrite Forall_forall in Hwf. apply Hwf. apply list_elem_of_lookup. eauto. }
  destruct Hpw as [Ht [Hc [Hx [Htt Hxx]]]].
  assert (Hacc : accepted (title p) (category p) (content p) = true).
  { unfold accepted. now rewrite Htt, Hxx, Ht, Hc, Hx. }
  split; [exact Hid|].
  rewrite handleEditSubmit_unfold, Hacc, handleEditSubmit_timeout_run.
  rewrite Hid, Hi, Htt, Hxx. cbn zeta.
  assert (Ha : assign_post i (title p) (category p) (content p) st = set_posts (posts st) st).
  { unfold assign_post. f_equal. apply (alter_same _ _ _ p Hp). now destruct p. }
  rewrite Ha. cbn [posts rendered setItem_blogPosts set_localStorage set_posts].
  destruct (page_ok b (posts st));
    cbn [fst snd posts localStorage notifications showNotification rendered
         setItem_blogPosts set_localStorage set_posts];
    (split; [reflexivity|]); (split; [apply lookup_insert_eq|]); split; reflexivity.
Qed.

(** The edit form of post a of the scenario, submitted as it was filled. *)
Lemma edit_form_unchanged_witness :
  let form := mkEditForm "a" "Hello World" "Tech" "foo" in
  Forall well_formed (posts scenario)
  /\ openEditForm "a" scenario = Some form
  /\ posts (snd (handleEditSubmit examples_browser "a" "Hello World" "Tech" "foo" scenario))
     = posts scenario.
Proof.
  intros form.
  assert (H : Forall well_formed (posts scenario)).
  { repeat (constructor; [repeat split|]). constructor. }
  assert (Ho : openEditForm "a" scenario = Some form) by reflexivity.
  split; [exact H|]. split; [exact Ho|].
  exact (proj1 (proj2 (edit_form_unchanged examples_browser "a" scenario form H Ho))).
Defined.

(** X12.  Whatever the form holds, [handleEditSubmit] leaves the sequence of
    ids and creation times of the collection as it was. *)
Theorem update_keeps_ids (b : Browser) (postId t c x : string) (st : State) :
  map (fun p => (id p, createdAt p)) (posts (snd (handleEditSubmit b postId t c x st)))
  = map (fun p => (id p, createdAt p)) (posts st).
Proof.
  rewrite posts_handleEditSubmit. destruct (accepted t c x); [|reflexivity].
  destruct (findIndex _ (posts st)) as [i|]; [|reflexivity].
  generalize (posts st). intros l. revert i.
  induction l as [|a l IH]; intros [|i]; simpl; try reflexivity.
  f_equal. apply IH.
Qed.

Lemma map_id_alter (t c x : string) (i : nat) (l : list Post) :
  map id (alter (fun old => mkPost (id old) t c x (createdAt old)) i l) = map id l.
Proof.
  revert i. induction l as [|a l IH]; intros [|i]; simpl; try reflexivity.
  f_equal. apply IH.
Qed.

Lemma NoDup_map_filter {A B : Type} (f : A -> B) (P : A -> Prop)
    `{!forall x, Decision (P x)} (l : list A) :
  NoDup (map f l) -> NoDup (map f (filter P l)).
Proof.
  induction l as [|a l IH]; intros Hnd; [constructor|].
  cbn [map] in Hnd. apply NoDup_cons in Hnd as [Ha Hl].
  rewrite filter_cons. destruct (decide (P a)); [|now apply IH].
  cbn [map]. apply NoDup_cons. split; [|now apply IH].
  intros Hin. apply Ha. apply list_elem_of_In, in_map_iff in Hin as [y [Hy Hin]].
  apply list_elem_of_In, in_map_iff. exists y. split; [exact Hy|].
  apply list_elem_of_In. apply list_elem_of_In in Hin.
  now apply list_elem_of_filter in Hin as [_ Hin].
Qed.

(** X13.  Distinct ids stay distinct under update and delete, and under a
    creation whose generated id is not yet in the collection. *)
Theorem distinct_ids_kept (b : Browser) (a : action) (st : State) :
  NoDup (map id (posts st)) ->
  (forall env t c x, a = Create env t c x -> accepted t c x = true ->
     generateUniqueId env ∉ map id (posts st)) ->
  NoDup (map id (posts (step b a st))).
Proof.
  intros Hnd Hfresh. destruct a as [env t c x | i t c x | i]; cbn [step].
  - rewrite posts_handlePostSubmit. destruct (accepted t c x) eqn:E; [|exact Hnd].
    cbn [map id]. apply NoDup_cons. split; [|exact Hnd].
    now apply (Hfresh env t c x).
  - rewrite posts_handleEditSubmit. destruct (accepted t c x); [|exact Hnd].
    destruct (findIndex _ (posts st)); [|exact Hnd]. now rewrite map_id_alter.
  - rewrite posts_deletePost. now apply NoDup_map_filter.
Qed.

(** A creation on the scenario whose generated id is new. *)
Lemma distinct_ids_kept_witness :
  let env := mkEnv 1700000000000 "0.4fzyo82mvyr" "2023-11-14T22:13:20.000Z" in
  let a := Create env " Soup " "Food" "stir " in
  NoDup (map id (posts scenario))
  /\ (generateUniqueId env ∉ map id (posts scenario))
  /\ NoDup (map id (posts (step examples_browser a scenario))).
Proof.
  intros env a.
  assert (Hnd : NoDup (map id (posts scenario))).
  { apply NoDup_cons_2; [intro H; no_member H|].
    apply NoDup_cons_2; [intro H; no_member H|]. apply NoDup_nil_2. }
  assert (Hnew : generateUniqueId env ∉ map id (posts scenario)).
  { intro H. no_member H. }
  split; [exact Hnd|]. split; [exact Hnew|].
  apply (distinct_ids_kept examples_browser a scenario Hnd).
  intros env' t c x E _. injection E as <- _ _ _. exact Hnew.
Defined.

Lemma filter_id_comm (i j : string) (ps : list Post) :
  filter (fun p => id p <> i) (filter (fun p => id p <> j) ps)
  = filter (fun p => id p <> j) (filter (fun p => id p <> i) ps).
Proof.
  induction ps as [|p ps IH]; [reflexivity|].
  rewrite !filter_cons.
  destruct (decide (id p <> i)) as [Hi|Hi], (decide (id p <> j)) as [Hj|Hj];
    rewrite ?filter_cons, ?decide_True, ?decide_False by assumption;
    now rewrite IH.
Qed.

(** X14.  Deleting two ids in either order leaves the same collection, the same
    stored text and the same posts in the container, and the second call ends
    in the same way, returning or throwing, in both orders. *)
Theorem deletePost_commutes (b : Browser) (i j : string) (st : State) :
  let ij := deletePost b i (snd (deletePost b j st)) in
  let ji := deletePost b j (snd (deletePost b i st)) in
  posts (snd ij) = posts (snd ji)
  /\ localStorage (snd ij) = localStorage (snd ji)
  /\ postsContainer (snd ij) = postsContainer (snd ji)
  /\ fst ij = fst ji.
Proof.
  intros ij ji.
  assert (Hp : posts (snd ij) = posts (snd ji)).
  { subst ij ji. rewrite !posts_deletePost. apply filter_id_comm. }
  split; [exact Hp|]. split; [|split].
  - subst ij ji.
    rewrite (localStorage_deletePost b i (snd (deletePost b j st))),
      (localStorage_deletePost b j (snd (deletePost b i st))), Hp.
    rewrite (localStorage_deletePost b j st), (localStorage_deletePost b i st).
    now rewrite !insert_insert_eq.
  - subst ij ji.
    rewrite (postsContainer_deletePost b i (snd (deletePost b j st))),
      (postsContainer_deletePost b j (snd (deletePost b i st))).
    now rewrite Hp.
  - subst ij ji.
    rewrite (fst_deletePost b i (snd (deletePost b j st))),
      (fst_deletePost b j (snd (deletePost b i st))).
    now rewrite Hp.
Qed.

(** ** The generated id *)

Lemma truthy_toString36_aux (fuel : nat) (n : N) (acc : string) :
  truthy acc = true -> truthy (toString36_aux fuel n acc) = true.
Proof.
  revert n acc. induction fuel as [|fuel IH]; intros n acc H; [exact H|].
  rewrite toString36_aux_S. destruct (n / 36 =? 0); [reflexivity|]. now apply IH.
Qed.

Lemma truthy_toString36 (n : N) : truthy (toString36 n) = true.
Proof.
  unfold toString36. rewrite toString36_aux_S.
  destruct (n / 36 =? 0); [reflexivity|]. now apply truthy_toString36_aux.
Qed.

Lemma truthy_append_l (a b : string) : truthy a = true -> truthy (a +:+ b) = true.
Proof. destruct a; [discriminate | reflexivity]. Qed.

Lemma truthy_generateUniqueId (env : Env) : truthy (generateUniqueId env) = true.
Proof. apply truthy_append_l, truthy_toString36. Qed.

Lemma length_substring (n m : nat) (s : string) :
  (String.length (String.substring n m s) <= m)%nat.
Proof.
  revert n m. induction s as [|c s IH]; intros [|n] [|m]; simpl; try lia.
  - specialize (IH O m). lia.
  - apply (IH n 0%nat).
  - apply (IH n (S m)).
Qed.

(** X2.  The generated id is never empty; it is the clock reading in base 36,
    from which the reading can be read back, followed by at most five
    characters of the random text. *)
Theorem generateUniqueId_shape (env : Env) :
  truthy (generateUniqueId env) = true
  /\ exists suffix,
       generateUniqueId env = toString36 (Date_now env) +:+ suffix
       /\ (String.length suffix <= 5)%nat
       /\ value36 (toString36 (Date_now env)) = Date_now env.
Proof.
  split.
  - apply truthy_generateUniqueId.
  - exists (substr 2 5 (Math_random_toString36 env)).
    split; [reflexivity|]. split; [apply length_substring | apply value36_toString36].
Qed.

(** Number of base-36 digits. *)
Lemma toString36_aux_length (f : nat) :
  forall (n : N) (acc : string) (k : nat),
  n < 2 ^ N.of_nat f -> n < 36 ^ N.of_nat (S k) -> (k = O \/ 36 ^ N.of_nat k <= n) ->
  String.length (toString36_aux (S f) n acc) = (S k + String.length acc)%nat.
Proof.
  induction f as [|f IH]; intros n acc k Hf Hk Hlow.
  - simpl in Hf. assert (n = 0) as -> by lia.
    destruct Hlow as [->|Hlow]; [reflexivity|].
    pose proof (N.pow_nonzero 36 (N.of_nat k) ltac:(lia)). lia.
  - rewrite toString36_aux_S.
    destruct (n / 36 =? 0) eqn:E.
    + apply N.eqb_eq in E. assert (Hn : n < 36).
      { destruct (N.lt_ge_cases n 36) as [H|H]; [exact H|].
        pose proof (N.Div0.div_le_mono 36 n 36 H) as Hd.
        change (36 / 36) with 1 in Hd. lia. }
      destruct Hlow as [->|Hlow]; [reflexivity|].
      destruct k as [|k]; [reflexivity|].
      exfalso. rewrite Nat2N.inj_succ, N.pow_succ_r' in Hlow.
      pose proof (N.pow_nonzero 36 (N.of_nat k) ltac:(lia)). lia.
    + apply N.eqb_neq in E.
      assert (Hge : 36 <= n).
      { destruct (N.lt_ge_cases n 36) as [H|H]; [|exact H].
        rewrite (N.div_small n 36 H) in E. congruence. }
      destruct k as [|k].
      { exfalso. change (36 ^ N.of_nat 1) with 36 in Hk. lia. }
      assert (Hq : n / 36 < 2 ^ N.of_nat f).
      { rewrite Nat2N.inj_succ, N.pow_succ_r' in Hf.
        apply N.Div0.div_lt_upper_bound; lia. }
      rewrite (IH (n / 36) _ k Hq).
      * simpl. lia.
      * rewrite (Nat2N.inj_succ (S k)), N.pow_succ_r' in Hk.
        apply N.Div0.div_lt_upper_bound; lia.
      * right. destruct Hlow as [Hk0|Hlow]; [discriminate|].
        rewrite Nat2N.inj_succ, N.pow_succ_r' in Hlow.
        apply N.div_le_lower_bound; lia.
Qed.

Lemma toString36_length8 (n : N) :
  36 ^ 7 <= n < 36 ^ 8 -> String.length (toString36 n) = 8%nat.
Proof.
  intros [Hlo Hhi]. unfold toString36.
  rewrite (toString36_aux_length _ n EmptyString 7).
  - reflexivity.
  - rewrite N2Nat.id. apply N.size_gt.
  - exact Hhi.
  - right. exact Hlo.
Qed.

Lemma append_inj_length (a b c d : string) :
  String.length a = String.length c -> a +:+ b = c +:+ d -> a = c /\ b = d.
Proof.
  revert c. induction a as [|x a IH]; intros [|y c] Hl H; simpl in *; try discriminate.
  - auto.
  - injection H as -> H. injection Hl as Hl. destruct (IH c Hl H) as [-> ->]. auto.
Qed.

Lemma generateUniqueId_inj (env1 env2 : Env) :
  36 ^ 7 <= Date_now env1 < 36 ^ 8 ->
  36 ^ 7 <= Date_now env2 < 36 ^ 8 ->
  generateUniqueId env1 = generateUniqueId env2 ->
  Date_now env1 = Date_now env2
  /\ substr 2 5 (Math_random_toString36 env1) = substr 2 5 (Math_random_toString36 env2).
Proof.
  intros H1 H2 Heq. unfold generateUniqueId in Heq.
  apply append_inj_length in Heq as [Hn Hs].
  - split; [|exact Hs]. rewrite <- (value36_toString36 (Date_now env1)), Hn.
    apply value36_toString36.
  - now rewrite !toString36_length8.
Qed.

(** X3.  While the clock reading has eight digits in base 36 (from June 1972
    to May 2059), two readings that differ, or two random texts that differ in
    the five characters taken from them, give different ids. *)
Theorem generateUniqueId_distinct (env1 env2 : Env) :
  36 ^ 7 <= Date_now env1 < 36 ^ 8 ->
  36 ^ 7 <= Date_now env2 < 36 ^ 8 ->
  Date_now env1 <> Date_now env2
  \/ substr 2 5 (Math_random_toString36 env1) <> substr 2 5 (Math_random_toString36 env2) ->
  generateUniqueId env1 <> generateUniqueId env2.
Proof.
  intros H1 H2 Hne Heq.
  destruct (generateUniqueId_inj env1 env2 H1 H2 Heq) as [Hn Hs]. tauto.
Qed.

(** Two readings of the clock one millisecond apart, with the same random
    text. *)
Lemma generateUniqueId_distinct_witness :
  let env1 := mkEnv 1700000000000 "0.4fzyo82mvyr" "2023-11-14T22:13:20.000Z" in
  let env2 := mkEnv 1700000000001 "0.4fzyo82mvyr" "2023-11-14T22:13:20.001Z" in
  (36 ^ 7 <= Date_now env1 < 36 ^ 8)
  /\ (36 ^ 7 <= Date_now env2 < 36 ^ 8)
  /\ generateUniqueId env1 <> generateUniqueId env2.
Proof.
  intros env1 env2.
  assert (H1 : 36 ^ 7 <= Date_now env1 < 36 ^ 8)
    by (split; [discriminate | reflexivity]).
  assert (H2 : 36 ^ 7 <= Date_now env2 < 36 ^ 8)
    by (split; [discriminate | reflexivity]).
  split; [exact H1|]. split; [exact H2|].
  apply (generateUniqueId_distinct env1 env2 H1 H2).
  left. discriminate.
Defined.

(** ** The delete confirmation *)

Lemma List_filter_idem {A : Type} (f : A -> bool) (l : list A) :
  List.filter f (List.filter f l) = List.filter f l.
Proof.
  induction l as [|a l IH]; [reflexivity|]. cbn [List.filter].
  destruct (f a) eqn:E; [|exact IH]. cbn [List.filter]. now rewrite E, IH.
Qed.

(** A [deletePost] that threw, called again, throws again and leaves the
    page as it is. *)
Lemma deletePost_again (b : Browser) (postId : string) (st : State) :
  fst (deletePost b postId st) = TypeError ->
  deletePost b postId (snd (deletePost b postId st)) = deletePost b postId st.
Proof.
  rewrite (deletePost_run b postId st). cbn zeta.
  set (st1 := rendered b (setItem_blogPosts (filter_out postId st))).
  destruct (page_ok b (posts st1)) eqn:Hok; [discriminate|]. intros _. cbn [snd].
  rewrite (deletePost_run b postId st1). cbn zeta.
  assert (Hf : filter_out postId st1 = st1).
  { subst st1. unfold filter_out, set_posts, rendered, setItem_blogPosts, set_localStorage.
    cbn [posts localStorage postsContainer categoriesList recentPostsList notifications].
    now rewrite List_filter_idem. }
  rewrite Hf. subst st1. rewrite rendered_setItem_idem. now rewrite Hok.
Qed.

Lemma fst_deletePost_cases (b : Browser) (postId : string) (st : State) :
  fst (deletePost b postId st) = Return Undefined
  \/ fst (deletePost b postId st) = TypeError.
Proof. rewrite fst_deletePost. destruct (page_ok b _); auto. Qed.

(** X15.  The confirm button deletes the post whose confirmation is open.
    After [openDeleteConfirmation] with an id that is not empty the click is
    [deletePost] of that id: when it returns, the dialog is closed and the id
    forgotten; when it throws, the listener ends there, so the dialog stays
    open with its id.  A second click leaves everything as the first click
    left it, and a click after cancel changes nothing. *)
Theorem confirmDelete_once (b : Browser) (c : Confirmation) (st : State) :
  let r := confirmDelete b c st in
  confirmDelete b (fst (snd r)) (snd (snd r)) = r
  /\ confirmDelete b (cancelDelete c) st = (Return tt, (cancelDelete c, st))
  /\ (forall postId, truthy postId = true ->
        let d := deletePost b postId st in
        let r' := confirmDelete b (openDeleteConfirmation postId c) st in
        snd (snd r') = snd d
        /\ (fst d = Return Undefined ->
            fst r' = Return tt /\ fst (snd r') = mkConfirmation None true)
        /\ (fst d = TypeError ->
            fst r' = TypeError /\ fst (snd r') = openDeleteConfirmation postId c)).
Proof.
  intros r. split; [|split].
  - subst r. unfold confirmDelete at 2 3 4. destruct (postIdToDelete c) as [i|] eqn:E.
    + destruct (truthy i) eqn:T.
      * destruct (fst_deletePost_cases b i st) as [Hd|Hd];
          destruct (deletePost b i st) as [o st1] eqn:D; cbn [fst] in Hd; subst o;
          cbn [fst snd]; [reflexivity|].
        unfold confirmDelete. rewrite E, T.
        pose proof (deletePost_again b i st) as Ha. rewrite D in Ha. cbn [fst snd] in Ha.
        now rewrite (Ha eq_refl).
      * cbn [fst snd]. unfold confirmDelete. now rewrite E, T.
    + cbn [fst snd]. unfold confirmDelete. now rewrite E.
  - reflexivity.
  - intros postId H d r'. subst d r'. unfold confirmDelete, openDeleteConfirmation.
    cbn [postIdToDelete]. rewrite H.
    destruct (fst_deletePost_cases b postId st) as [Hd|Hd];
      destruct (deletePost b postId st) as [o st1]; cbn [fst] in Hd; subst o;
      cbn [fst snd]; repeat split; intros; congruence.
Qed.

(** X16.  A post just created can be deleted through the dialog: confirming the
    deletion of the generated id leaves the posts there were before whose id
    is another one, so the former collection when the id was new, and the
    result is in storage.  The dialog is closed when every card and link of
    what remains has the element looked up in it; otherwise the click throws
    a TypeError and the dialog stays open. *)
Theorem create_then_confirm_delete
    (b : Browser) (env : Env) (t c x : string) (cf : Confirmation) (st : State) :
  accepted t c x = true ->
  let newId := generateUniqueId env in
  let remaining := filter (fun p => id p <> newId) (posts st) in
  let r := confirmDelete b (openDeleteConfirmation newId cf)
             (snd (handlePostSubmit b env t c x st)) in
  posts (snd (snd r)) = remaining
  /\ ((forall p, p ∈ posts st -> id p <> newId) -> posts (snd (snd r)) = posts st)
  /\ localStorage (snd (snd r)) !! "blogPosts"
     = Some (JSON_stringify (posts (snd (snd r))))
  /\ (page_ok b remaining = true ->
      fst r = Return tt /\ fst (snd r) = mkConfirmation None true)
  /\ (page_ok b remaining = false ->
      fst r = TypeError /\ fst (snd r) = openDeleteConfirmation newId cf).
Proof.
  intros H newId remaining r. subst r.
  pose proof (truthy_generateUniqueId env) as Hid. fold newId in Hid.
  set (st1 := snd (handlePostSubmit b env t c x st)).
  assert (Hp : posts (snd (deletePost b newId st1)) = remaining).
  { subst st1. rewrite posts_deletePost, posts_handlePostSubmit, H.
    rewrite filter_cons, decide_False; [reflexivity|]. cbn [id]. tauto. }
  pose proof (fst_deletePost b newId st1) as Hf. rewrite Hp in Hf.
  pose proof (localStorage_deletePost b newId st1) as Hl.
  unfold confirmDelete, openDeleteConfirmation. cbn [postIdToDelete]. rewrite Hid.
  destruct (deletePost b newId st1) as [o st2]. cbn [fst snd] in *. subst o.
  destruct (page_ok b remaining); cbn [fst snd].
  - split; [exact Hp|]. split; [intros Hn; rewrite Hp; now apply filter_absent|].
    split; [rewrite Hl; apply lookup_insert_eq|]. split; [auto | discriminate].
  - split; [exact Hp|]. split; [intros Hn; rewrite Hp; now apply filter_absent|].
    split; [rewrite Hl; apply lookup_insert_eq|]. split; [discriminate | auto].
Qed.

(** A post created on the scenario and deleted again. *)
Lemma create_then_confirm_delete_witness :
  let env := mkEnv 1700000000000 "0.4fzyo82mvyr" "2023-11-14T22:13:20.000Z" in
  let closed := mkConfirmation None true in
  accepted " Soup " "Food" "stir " = true
  /\ posts (snd (snd (confirmDelete examples_browser
                   (openDeleteConfirmation (generateUniqueId env) closed)
                   (snd (handlePostSubmit examples_browser env " Soup " "Food" "stir "
                           scenario)))))
     = posts scenario.
Proof.
  intros env closed.
  assert (H : accepted " Soup " "Food" "stir " = true) by reflexivity.
  assert (Hnew : forall p, p ∈ posts scenario -> id p <> generateUniqueId env).
  { intros p Hp. each_post Hp; discriminate. }
  split; [exact H|].
  exact (proj1 (proj2
    (create_then_confirm_delete examples_browser env " Soup " "Food" "stir " closed
       scenario H))
    Hnew).
Defined.

(** ** The theme *)

(** X17.  [toggleTheme] flips the theme, shows the moon exactly for the dark
    theme and stores the name of the new theme; [initTheme] on the storage it
    leaves restores that theme whatever the system prefers; two toggles give
    back the theme there was. *)
Theorem theme_persists (prefersDark : bool) (th th0 : Theme) (st : State) :
  let r := toggleTheme th st in
  dark_theme (fst r) = negb (dark_theme th)
  /\ themeToggle_icon (fst r) = (if dark_theme (fst r) then Moon else Sun)
  /\ localStorage (snd r) !! "blogTheme"
     = Some (if dark_theme (fst r) then "dark" else "light")
  /\ initTheme prefersDark (snd r) th0 = fst r
  /\ dark_theme (fst (toggleTheme (fst r) (snd r))) = dark_theme th.
Proof.
  intros r. subst r. unfold toggleTheme, initTheme, updateThemeIcon.
  cbn [fst snd dark_theme themeToggle_icon localStorage set_localStorage].
  rewrite lookup_insert_eq.
  destruct (dark_theme th); cbn [negb]; repeat split.
Qed.

(** ** Storage keys *)

Lemma localStorage_step_other (b : Browser) (a : action) (st : State) (k : string) :
  k <> "blogPosts" -> localStorage (step b a st) !! k = localStorage st !! k.
Proof.
  intros Hk. destruct a as [env t c x | i t c x | i]; cbn [step].
  - rewrite handlePostSubmit_unfold. destruct (accepted t c x); [|reflexivity].
    rewrite handlePostSubmit_timeout_run. cbn zeta.
    destruct (page_ok b _); now apply lookup_insert_ne.
  - rewrite handleEditSubmit_unfold. destruct (accepted t c x); [|reflexivity].
    rewrite handleEditSubmit_timeout_run. destruct (findIndex _ (posts st)); [|reflexivity].
    cbn zeta. destruct (page_ok b _); now apply lookup_insert_ne.
  - rewrite localStorage_deletePost. now apply lookup_insert_ne.
Qed.

(** X18.  Create, update and delete, as [script.js] writes them, write no key
    of the storage but [blogPosts].  The draft that the editor widget saves
    under a key of its own is the widget's doing and outside the model. *)
Theorem actions_write_only_blogPosts
    (b : Browser) (acts : list action) (st : State) (k : string) :
  k <> "blogPosts" -> localStorage (run b acts st) !! k = localStorage st !! k.
Proof.
  intros Hk. revert st. induction acts as [|a acts IH]; intros st; [reflexivity|].
  change (run b (a :: acts) st) with (run b acts (step b a st)).
  now rewrite IH, localStorage_step_other.
Qed.

(** The stored theme, across actions on the posts of the scenario. *)
Lemma actions_write_only_blogPosts_witness :
  let env := mkEnv 1700000000000 "0.4fzyo82mvyr" "2023-11-14T22:13:20.000Z" in
  let acts := [Create env " Soup " "Food" "stir "; Delete "a"] in
  let st := snd (toggleTheme (mkTheme false Sun) scenario) in
  "blogTheme" <> "blogPosts"
  /\ localStorage (run examples_browser acts st) !! "blogTheme"
     = localStorage st !! "blogTheme".
Proof.
  intros env acts st.
  assert (H : "blogTheme" <> "blogPosts") by discriminate.
  split; [exact H|].
  exact (actions_write_only_blogPosts examples_browser acts st "blogTheme" H).
Defined.

Lemma initTheme_run
    (b : Browser) (acts : list action) (prefersDark : bool) (th : Theme) (st : State) :
  initTheme prefersDark (run b acts st) th = initTheme prefersDark st th.
Proof.
  unfold initTheme.
  assert (H : localStorage (run b acts st) !! "blogTheme" = localStorage st !! "blogTheme").
  { revert st. induction acts as [|a acts IH]; intros st; [reflexivity|].
    change (run b (a :: acts) st) with (run b acts (step b a st)).
    rewrite IH. now apply localStorage_step_other. }
  now rewrite H.
Qed.

(** X19.  The theme and the posts do not disturb each other: [initTheme] gives
    the same theme before and after any actions on posts, and [toggleTheme]
    changes neither the collection, nor the posts displayed, nor the stored
    collection. *)
Theorem theme_and_posts_independent
    (b : Browser) (acts : list action) (prefersDark : bool) (th : Theme) (st : State) :
  initTheme prefersDark (run b acts st) th = initTheme prefersDark st th
  /\ posts (snd (toggleTheme th st)) = posts st
  /\ postsContainer (snd (toggleTheme th st)) = postsContainer st
  /\ localStorage (snd (toggleTheme th st)) !! "blogPosts"
     = localStorage st !! "blogPosts".
Proof.
  split; [apply initTheme_run|]. split; [reflexivity|]. split; [reflexivity|].
  unfold toggleTheme. cbn [snd localStorage set_localStorage].
  now apply lookup_insert_ne.
Qed.

(** ** Editing twice *)

Lemma findIndex_ids (postId : string) (l l' : list Post) :
  map id l = map id l' ->
  findIndex (fun p => String.eqb (id p) postId) l
  = findIndex (fun p => String.eqb (id p) postId) l'.
Proof.
  revert l'. induction l as [|a l IH]; intros [|a' l'] H; try discriminate; [reflexivity|].
  cbn [map] in H. injection H as Hab H. cbn [findIndex]. rewrite Hab.
  now rewrite (IH l' H).
Qed.

Lemma alter_twice {A : Type} (g : A -> A) (i : nat) (l : list A) :
  (forall a, g (g a) = g a) -> alter g i (alter g i l) = alter g i l.
Proof.
  intros Hg. revert i. induction l as [|a l IH]; intros [|i]; simpl; try reflexivity.
  - now rewrite Hg.
  - f_equal. apply IH.
Qed.

(** What a found edit leaves in the collection, the storage and the
    container, however the rendering ends. *)
Lemma handleEditSubmit_timeout_state
    (b : Browser) (postId t c x : string) (st : State) (i : nat) :
  findIndex (fun p => String.eqb (id p) postId) (posts st) = Some i ->
  let st' := snd (handleEditSubmit_timeout b postId t c x st) in
  let ps := alter (fun old => mkPost (id old) t c x (createdAt old)) i (posts st) in
  posts st' = ps
  /\ localStorage st' = <["blogPosts" := JSON_stringify ps]> (localStorage st)
  /\ postsContainer st' = displayed b ps.
Proof.
  intros E st' ps. subst st'. rewrite handleEditSubmit_timeout_run, E. cbn zeta.
  destruct (page_ok b _); repeat split.
Qed.

(** X22.  Submitting the same edit twice is submitting it once: the
    collection, the storage and the posts displayed are those after the first
    submission. *)
Theorem handleEditSubmit_twice (b : Browser) (postId t c x : string) (st : State) :
  let st1 := snd (handleEditSubmit b postId t c x st) in
  let st2 := snd (handleEditSubmit b postId t c x st1) in
  posts st2 = posts st1
  /\ localStorage st2 = localStorage st1
  /\ postsContainer st2 = postsContainer st1.
Proof.
  intros st1 st2. subst st2 st1.
  rewrite !handleEditSubmit_unfold.
  destruct (accepted t c x); [|repeat split].
  destruct (findIndex (fun p => String.eqb (id p) postId) (posts st)) as [i|] eqn:E.
  - destruct (handleEditSubmit_timeout_state b postId (trim t) c (trim x) st i E)
      as [Hp [Hl Hc]].
    set (st1 := snd (handleEditSubmit_timeout b postId (trim t) c (trim x) st)) in *.
    set (g := fun old => mkPost (id old) (trim t) c (trim x) (createdAt old)) in *.
    assert (E1 : findIndex (fun p => String.eqb (id p) postId) (posts st1) = Some i).
    { rewrite <- E. apply findIndex_ids. rewrite Hp. apply map_id_alter. }
    destruct (handleEditSubmit_timeout_state b postId (trim t) c (trim x) st1 i E1)
      as [Hp2 [Hl2 Hc2]].
    fold g in Hp2, Hl2, Hc2.
    rewrite Hp, alter_twice in Hp2, Hl2, Hc2 by reflexivity.
    rewrite Hp2, Hl2, Hc2, Hp, Hl, Hc. now rewrite insert_insert_eq.
  - rewrite (handleEditSubmit_timeout_run b postId (trim t) c (trim x) st), E. cbn [snd].
    rewrite handleEditSubmit_timeout_run, E. repeat split.
Qed.

(** ** A post that breaks the rendering *)

(** X23.  A submission whose callback throws has stored its post all the
    same: the post stands in front of the collection and in the stored text,
    and no notification is raised.  From then on the page cannot be loaded:
    [loadPosts] on the stored text assigns the collection and throws a
    TypeError as well. *)
Theorem broken_submission_breaks_reload
    (b : Browser) (env : Env) (t c x : string) (st : State) :
  accepted t c x = true ->
  let r := handlePostSubmit b env t c x st in
  fst r = TypeError ->
  posts (snd r)
  = mkPost (generateUniqueId env) (trim t) c (trim x) (Date_toISOString env)
    :: posts st
  /\ localStorage (snd r) !! "blogPosts" = Some (JSON_stringify (posts (snd r)))
  /\ notifications (snd r) = notifications st
  /\ exists st',
       loadPosts b (initial (localStorage (snd r))) = (TypeError, Some st')
       /\ posts st' = posts (snd r).
Proof.
  intros H r. subst r. rewrite handlePostSubmit_unfold, H, handlePostSubmit_timeout_run.
  cbn zeta. set (newPost := mkPost _ _ _ _ _). set (st1 := rendered b _).
  destruct (page_ok b (newPost :: posts st)) eqn:Hok; [discriminate|]. intros _.
  cbn [fst snd].
  assert (Hl : localStorage st1 !! "blogPosts" = Some (JSON_stringify (newPost :: posts st)))
    by apply lookup_insert_eq.
  split; [reflexivity|]. split; [exact Hl|]. split; [reflexivity|].
  exists (rendered b (set_posts (newPost :: posts st) (initial (localStorage st1)))).
  rewrite (loadPosts_stored b _ (newPost :: posts st)) by exact Hl.
  now rewrite Hok.
Qed.

(** A post whose title opens a comment, submitted on the scenario. *)
Lemma broken_submission_breaks_reload_witness :
  let env := mkEnv 1700000000000 "0.4fzyo82mvyr" "2023-11-14T22:13:20.000Z" in
  let r := handlePostSubmit examples_browser env "<!--" "Tech" "baz" scenario in
  accepted "<!--" "Tech" "baz" = true
  /\ fst r = TypeError
  /\ exists st',
       loadPosts examples_browser (initial (localStorage (snd r))) = (TypeError, Some st')
       /\ posts st' = posts (snd r).
Proof.
  intros env r.
  assert (H : accepted "<!--" "Tech" "baz" = true) by reflexivity.
  assert (Ht : fst r = TypeError) by reflexivity.
  split; [exact H|]. split; [exact Ht|].
  exact (proj2 (proj2 (proj2
    (broken_submission_breaks_reload examples_browser env "<!--" "Tech" "baz" scenario
       H Ht)))).
Defined.
